(** * company: models, data store and session gate

    A shallow embedding of [src/company/models.py], [src/company/data.py],
    [src/company/utils.py] and the [login], [logout], [employees] and
    [inventory view] commands of [src/company/cli.py].

    - Dataclasses without cycles ([Permission], [Role], [User],
      [Membership], [Inventory], [Company]) are records; the [==] that
      [@dataclass] generates compares field by field, which is Leibniz
      equality on the record.
    - [Category] objects carry a [parent] reference, can form cycles and
      can be mutated after a [Product] was built from them, so they live
      in a store ([Heap]) and are named by location.
    - [datetime] values are microseconds on the integer line.
    - Python sets of ints are [gset Z]; [str] is [string].
    - Code that reads the clock, the session or the terminal runs in the
      state-and-exception monad [M].
    - [Product.update] works on attribute names, so it is given the
      product as the interpreter holds it ([PyObject.t]). *)

From stdpp Require Import base numbers strings list gmap.

Open Scope Z_scope.
Set Warnings "-clear-no-such-hyp".

(** ** Results of running code *)

(** A [while] loop is run with fuel; a reference that is not in the store
    has no counterpart in Python and is reported apart. *)
Inductive outcome (A : Type) : Type :=
  | Returns (a : A)
  | OutOfFuel
  | DanglingRef.
Arguments Returns {A} a.
Arguments OutOfFuel {A}.
Arguments DanglingRef {A}.

Inductive exn : Type :=
  | TypeError (msg : string)
  | AttributeError (msg : string).

Inductive result (A : Type) : Type :=
  | Ok (a : A)
  | Raise (e : exn).
Arguments Ok {A} a.
Arguments Raise {A} e.

(** ** Interfaces *)

(** [CategoryWithIdProtocol]: the [cat_id: int] attribute. *)
Class HasCatId (C : Type) := cat_id : C → Z.

(** [CategorisedProtocol]: anything that can be asked whether it belongs to
    a category. *)
Class CategorisedProtocol (P : Type) :=
  has_category : ∀ {C : Type} `{HasCatId C}, P → C → bool.

(** [CategoryWithIdProtocol.get_products]. *)
Class CategoryWithIdProtocol (C : Type) `{HasCatId C} :=
  get_products : ∀ {P : Type} `{CategorisedProtocol P}, C → list P → list P.

(** ** Users *)

Module PermissionCode.
Definition VIEW : string := "view".
Definition EDIT : string := "edit".
Definition DELETE : string := "delete".
Definition CREATE : string := "create".
Definition MANAGE : string := "manage".
Definition ADMIN : string := "admin".
Definition COMPANY_VIEW : string := "company_view".
Definition COMPANY_EDIT : string := "company_edit".
Definition COMPANY_DELETE : string := "company_delete".
Definition COMPANY_CREATE : string := "company_create".
Definition COMPANY_MANAGE : string := "company_manage".
Definition COMPANY_ADMIN : string := "company_admin".
Definition VIEW_LIST_ROLES : string := "view_list_permissions".
Definition VIEW_LIST_USERS : string := "view_list_users".
Definition CREATE_USER : string := "create_user".

Definition members : list string :=
  [VIEW; EDIT; DELETE; CREATE; MANAGE; ADMIN;
   COMPANY_VIEW; COMPANY_EDIT; COMPANY_DELETE; COMPANY_CREATE;
   COMPANY_MANAGE; COMPANY_ADMIN;
   VIEW_LIST_ROLES; VIEW_LIST_USERS; CREATE_USER].
End PermissionCode.

Module Permission.
Record t : Type := mk {
  perm_code : string;
  perm_description : option string;
}.
(** [Permission(code)]: the description defaults to the empty string. *)
Definition new (code : string) : t := mk code (Some "").

#[global] Instance eq_dec : EqDecision t.
Proof. solve_decision. Defined.
End Permission.

Module Role.
Record t : Type := mk {
  name : string;
  permissions : list Permission.t;
}.

#[global] Instance eq_dec : EqDecision t.
Proof. solve_decision. Defined.
End Role.

Module User.
Record t : Type := mk {
  username : string;
  password_hash : string;
  roles : list Role.t;
}.

#[global] Instance eq_dec : EqDecision t.
Proof. solve_decision. Defined.

(** [return self.password_hash == pw] *)
Definition authenticate (self : t) (pw : string) : bool :=
  bool_decide (password_hash self = pw).

(** [any(code == perm.perm_code for role in self.roles
                                for perm in role.permissions)] *)
Definition has_permission (self : t) (code : string) : bool :=
  existsb (λ perm, bool_decide (code = Permission.perm_code perm))
          (role ← roles self; Role.permissions role).
End User.

Module Membership.
Record t : Type := mk {
  user : User.t;
  role : Role.t;
  joined_date : Z;
  active : bool;
}.
(** [Membership(user, role, joined_date)]: [active] defaults to [True]. *)
Definition new (user : User.t) (role : Role.t) (joined_date : Z) : t :=
  mk user role joined_date true.

(** [any(code == perm.perm_code for perm in self.role.permissions)] *)
Definition has_permission (self : t) (code : string) : bool :=
  existsb (λ perm, bool_decide (code = Permission.perm_code perm))
          (Role.permissions (role self)).
End Membership.

(** ** Categories *)

(** A reference to a [Category] object. *)
Definition loc : Type := nat.

Module Category.
Record t : Type := mk {
  cat_id : Z;
  name : string;
  description : string;
  parent : option loc;
}.

#[global] Instance eq_dec : EqDecision t.
Proof. solve_decision. Defined.

#[global] Instance has_cat_id : HasCatId t := cat_id.

(** [return [p for p in all_products if p.has_category(self)]] *)
Definition get_products {P : Type} `{CategorisedProtocol P}
    (self : t) (all_products : list P) : list P :=
  List.filter (λ p, has_category p self) all_products.

#[global] Instance protocol : CategoryWithIdProtocol t :=
  λ P _, @get_products P _.
End Category.

(** The store of [Category] objects. *)
Abbreviation Heap := (gmap loc Category.t).

Module Store.
(** [category.parent = p] on the object at [l]. *)
Definition set_parent (h : Heap) (l : loc) (p : option loc) : Heap :=
  match h !! l with
  | Some c =>
      <[l := Category.mk (Category.cat_id c) (Category.name c)
               (Category.description c) p]> h
  | None => h
  end.

(** Every reference held in the store points into the store. *)
Definition closed (h : Heap) : Prop :=
  ∀ l c p, h !! l = Some c → Category.parent c = Some p → is_Some (h !! p).

(** The ids carried by the objects of the store. *)
Definition ids (h : Heap) : gset Z :=
  list_to_set (Category.cat_id <$> (map_to_list h).*2).

(** [chain h start cs stop]: following [parent] from the reference
    [start] visits the objects [cs] in this order, and the [parent] of
    the last one is [stop] ([start] itself when [cs] is empty). *)
Fixpoint chain (h : Heap) (start : option loc) (cs : list Category.t)
    (stop : option loc) : Prop :=
  match cs with
  | [] => start = stop
  | c :: cs' =>
      ∃ l, start = Some l ∧ h !! l = Some c ∧
           chain h (Category.parent c) cs' stop
  end.

(** A number of assignments to [parent], in order. *)
Definition set_parents (h : Heap) (writes : list (loc * option loc)) : Heap :=
  foldl (λ h' w, set_parent h' w.1 w.2) h writes.
End Store.

(** ** Floats *)

(** A Python [float] that is a number: [mantissa * 2 ^ exponent]. The
    program stores and prints floats and never computes with them. *)
Record pyfloat : Type := Float { mantissa : Z; exponent : Z }.

#[global] Instance pyfloat_eq_dec : EqDecision pyfloat.
Proof. solve_decision. Defined.

(** ** Objects at run time

    [Product.update] goes through the builtins [hasattr] and [setattr],
    which see an instance as the interpreter holds it: a class, and a
    dictionary of instance attributes. *)

(** The values an attribute of a product can hold: what the dataclass
    fields hold, what [json.loads] produces, and the functions and
    descriptors found in a class namespace ([VOpaque]; never a class,
    never a dict). [VDict] lists the items of a dict in insertion
    order. *)
#[warnings="-register-all"]
Inductive Value : Type :=
  | VNone
  | VBool (b : bool)
  | VInt (z : Z)
  | VFloat (x : pyfloat)
  | VStr (s : string)
  | VDate (t : Z)
  | VRef (l : loc)
  | VSet (s : gset Z)
  | VList (vs : list Value)
  | VDict (items : list (string * Value))
  | VOpaque (what : string).

Module PyObject.
Record t : Type := mk {
  class_name : string;
  (** what the classes of the MRO define, merged: methods, defaults of
      dataclass fields and the like (no data descriptors) *)
  class_namespace : gmap string Value;
  (** the instance dictionary *)
  instance_dict : gmap string Value;
}.

(** The data descriptors that [object] and the first class of the MRO
    with a [__dict__] put on every instance of a class without
    [__slots__]. They win over the instance dictionary. *)
Definition managed : list string := ["__class__"; "__dict__"; "__weakref__"].

(** Look-up of an attribute that the interpreter does not manage: the
    instance dictionary first, then the class. *)
Definition getattr (self : t) (name : string) : option Value :=
  match instance_dict self !! name with
  | Some v => Some v
  | None => class_namespace self !! name
  end.

(** [hasattr(self, name)]: whether reading the attribute succeeds. *)
Definition hasattr (self : t) (name : string) : bool :=
  bool_decide (name ∈ managed) || bool_decide (is_Some (getattr self name)).

(** [setattr(self, name, value)] with [object.__setattr__]. *)
Definition setattr (self : t) (name : string) (value : Value) : result t :=
  if decide (name = "__class__") then
    Raise (TypeError "__class__ must be set to a class")
  else if decide (name = "__dict__") then
    match value with
    | VDict items =>
        Ok (mk (class_name self) (class_namespace self) (list_to_map items))
    | _ => Raise (TypeError "__dict__ must be set to a dictionary")
    end
  else if decide (name = "__weakref__") then
    Raise (AttributeError "attribute '__weakref__' is not writable")
  else
    Ok (mk (class_name self) (class_namespace self)
           (<[name := value]> (instance_dict self))).
End PyObject.

(** ** Products *)

Module Product.
(** The fields that the subclasses [Yacht], [Boat] and [Motor] add;
    every field has a default, so a subclass can be built from the base
    arguments alone. *)
Inductive subclass : Type :=
  | Base
  | Yacht (loa_m beam_m draft_m : pyfloat) (berths_int : Z)
          (engine_type : string) (power_hp : Z)
  | Boat (length_m beam_m : pyfloat) (material engine_type : string)
         (power_hp : Z)
  | Motor (power_hp : Z) (fuel_type : string) (weight_kg : pyfloat).

Record t : Type := mk {
  uuid : string;
  name : string;
  description : string;
  price : pyfloat;
  produced_date : Z;
  is_new : bool;
  category : option loc;
  kind : subclass;
  _categories_ids : gset Z;
}.

(** The [while category is not None] loop of [__post_init__], on the
    two variables it updates. One unit of fuel pays for one test of the
    loop condition that finds a category. *)
Fixpoint walk (fuel : nat) (h : Heap)
    (categories : gset Z) (category : option loc) : outcome (gset Z) :=
  match category with
  | None => Returns categories
  | Some l =>
      match fuel with
      | O => OutOfFuel
      | S fuel' =>
          match h !! l with
          | None => DanglingRef
          | Some c =>
              if decide (Category.cat_id c ∈ categories)
              then walk fuel' h categories None
              else walk fuel' h (categories ∪ {[Category.cat_id c]})
                        (Category.parent c)
          end
      end
  end.

(** [__post_init__]: [categories = set(); category = self.category;
    while ...; self._categories_ids = categories]. *)
Definition __post_init__ (fuel : nat) (h : Heap)
    (category : option loc) : outcome (gset Z) :=
  walk fuel h ∅ category.

(** The generated [__init__]: store the fields, then [__post_init__]. *)
Definition __init__ (fuel : nat) (h : Heap)
    (uuid name description : string) (price : pyfloat)
    (produced_date : Z) (is_new : bool) (category : option loc)
    (kind : subclass) : outcome t :=
  match __post_init__ fuel h category with
  | Returns categories =>
      Returns (mk uuid name description price produced_date is_new
                  category kind categories)
  | OutOfFuel => OutOfFuel
  | DanglingRef => DanglingRef
  end.

(** [return category.cat_id in self._categories_ids] *)
Definition has_category {C : Type} `{HasCatId C}
    (self : t) (category : C) : bool :=
  bool_decide (cat_id category ∈ _categories_ids self).

#[global] Instance categorised : CategorisedProtocol t :=
  λ C _, @has_category C _.

(** *** The product as the interpreter holds it *)

Definition function : Value := VOpaque "function".

(** What [object], [typing.Protocol], [abc] and [@dataclass] leave in the
    namespace of a class (CPython 3.11). *)
Definition generated_names : list string :=
  ["__abstractmethods__"; "__annotations__"; "__class_getitem__";
   "__dataclass_fields__"; "__dataclass_params__"; "__delattr__";
   "__dir__"; "__doc__"; "__eq__"; "__format__"; "__ge__";
   "__getattribute__"; "__getstate__"; "__gt__"; "__hash__"; "__init__";
   "__init_subclass__"; "__le__"; "__lt__"; "__match_args__";
   "__module__"; "__ne__"; "__new__"; "__parameters__"; "__reduce__";
   "__reduce_ex__"; "__repr__"; "__setattr__"; "__sizeof__"; "__slots__";
   "__str__"; "__subclasshook__"; "_abc_impl"; "_is_protocol";
   "_is_runtime_protocol"].

Definition zero : pyfloat := Float 0 0.

(** The defaults of the fields that a subclass declares are class
    attributes. *)
Definition subclass_defaults (k : subclass) : list (string * Value) :=
  match k with
  | Base => []
  | Yacht _ _ _ _ _ _ =>
      [("loa_m", VFloat zero); ("beam_m", VFloat zero);
       ("draft_m", VFloat zero); ("berths_int", VInt 0);
       ("engine_type", VStr ""); ("power_hp", VInt 0)]
  | Boat _ _ _ _ _ =>
      [("length_m", VFloat zero); ("beam_m", VFloat zero);
       ("material", VStr ""); ("engine_type", VStr "");
       ("power_hp", VInt 0)]
  | Motor _ _ _ =>
      [("power_hp", VInt 0); ("fuel_type", VStr "");
       ("weight_kg", VFloat zero)]
  end.

Definition class_namespace (k : subclass) : gmap string Value :=
  list_to_map
    ([("category", VNone);
      ("__post_init__", function); ("has_category", function);
      ("to_json", function); ("update", function)]
     ++ subclass_defaults k
     ++ ((λ n, (n, VOpaque n)) <$> generated_names)).

Definition class_name (k : subclass) : string :=
  match k with
  | Base => "Product"
  | Yacht _ _ _ _ _ _ => "Yacht"
  | Boat _ _ _ _ _ => "Boat"
  | Motor _ _ _ => "Motor"
  end.

Definition subclass_fields (k : subclass) : list (string * Value) :=
  match k with
  | Base => []
  | Yacht loa_m beam_m draft_m berths_int engine_type power_hp =>
      [("loa_m", VFloat loa_m); ("beam_m", VFloat beam_m);
       ("draft_m", VFloat draft_m); ("berths_int", VInt berths_int);
       ("engine_type", VStr engine_type); ("power_hp", VInt power_hp)]
  | Boat length_m beam_m material engine_type power_hp =>
      [("length_m", VFloat length_m); ("beam_m", VFloat beam_m);
       ("material", VStr material); ("engine_type", VStr engine_type);
       ("power_hp", VInt power_hp)]
  | Motor power_hp fuel_type weight_kg =>
      [("power_hp", VInt power_hp); ("fuel_type", VStr fuel_type);
       ("weight_kg", VFloat weight_kg)]
  end.

(** [vars(self)] after construction. *)
Definition instance_dict (self : t) : gmap string Value :=
  list_to_map
    ([("uuid", VStr (uuid self)); ("name", VStr (name self));
      ("description", VStr (description self));
      ("price", VFloat (price self));
      ("produced_date", VDate (produced_date self));
      ("is_new", VBool (is_new self));
      ("category", from_option VRef VNone (category self))]
     ++ subclass_fields (kind self)
     ++ [("_categories_ids", VSet (_categories_ids self))]).

Definition to_object (self : t) : PyObject.t :=
  PyObject.mk (class_name (kind self)) (class_namespace (kind self))
              (instance_dict self).

(** [for k, v in kwargs.items():
       if hasattr(self, k): setattr(self, k, v)] *)
Fixpoint update_items (self : PyObject.t) (items : list (string * Value))
    : result PyObject.t :=
  match items with
  | [] => Ok self
  | (k, v) :: rest =>
      if PyObject.hasattr self k
      then match PyObject.setattr self k v with
           | Ok self' => update_items self' rest
           | Raise e => Raise e
           end
      else update_items self rest
  end.

(** [update(self, **kwargs)], called with the items of a mapping as
    keyword arguments: a key [self] collides with the positional
    parameter before the body runs. The object after the call is
    returned. *)
Definition update (self : PyObject.t) (kwargs : list (string * Value))
    : result PyObject.t :=
  if bool_decide ("self" ∈ kwargs.*1)
  then Raise (TypeError "update() got multiple values for argument 'self'")
  else update_items self kwargs.

(** *** [has_category] on the product as the interpreter holds it *)

(** [x == v] for an int [x]: ints, bools and floats compare by value,
    anything else differs from an int. *)
Definition int_equals (x : Z) (v : Value) : bool :=
  match v with
  | VInt z => bool_decide (x = z)
  | VBool b => bool_decide (x = if b then 1 else 0)
  | VFloat (Float m e) =>
      if decide (0 ≤ e) then bool_decide (x = m * 2 ^ e)
      else bool_decide (x * 2 ^ (- e) = m)
  | _ => false
  end.

(** [x in container] for an int [x]: membership in a set, equality with
    an element of a list, a key of a dict (the keys are strings);
    anything else is not a container of ints. *)
Definition contains_int (container : Value) (x : Z) : result bool :=
  match container with
  | VSet s => Ok (bool_decide (x ∈ s))
  | VList vs => Ok (existsb (int_equals x) vs)
  | VDict _ => Ok false
  | VStr _ =>
      Raise (TypeError
               "'in <string>' requires string as left operand, not int")
  | _ => Raise (TypeError "argument is not iterable")
  end.

(** [return category.cat_id in self._categories_ids], the function of
    the class run on the object. It is what [self.has_category]
    resolves to as long as the instance dictionary has no entry
    [has_category]. *)
Definition has_category_of {C : Type} `{HasCatId C}
    (self : PyObject.t) (category : C) : result bool :=
  match PyObject.getattr self "_categories_ids" with
  | Some ids => contains_int ids (cat_id category)
  | None =>
      Raise (AttributeError
               "'Product' object has no attribute '_categories_ids'")
  end.
End Product.

(** ** What happens to a product after it was built *)

(** An assignment [category.parent = parent] to the category at [l], or
    a call of [update] on the product. *)
Inductive event : Type :=
  | ParentWrite (l : loc) (parent : option loc)
  | Updated (kwargs : list (string * Value)).

(** One event, on the store of categories and the product. *)
Definition happen (ev : event) (st : Heap * PyObject.t)
    : result (Heap * PyObject.t) :=
  match ev with
  | ParentWrite l parent => Ok (Store.set_parent st.1 l parent, st.2)
  | Updated kwargs =>
      match Product.update st.2 kwargs with
      | Ok self' => Ok (st.1, self')
      | Raise e => Raise e
      end
  end.

(** Events in order; an exception ends the run. *)
Fixpoint happen_all (events : list event) (st : Heap * PyObject.t)
    : result (Heap * PyObject.t) :=
  match events with
  | [] => Ok st
  | ev :: rest =>
      match happen ev st with
      | Ok st' => happen_all rest st'
      | Raise e => Raise e
      end
  end.

(** The names through which [update] reaches the closure or the method
    that reads it, besides those on which it fails. *)
Definition closure_names : list string :=
  ["_categories_ids"; "has_category"].

(** An event that is a write to a parent link, or an update (of a
    mapping, so with distinct keys) that names neither [self], nor a
    managed attribute, nor one of [closure_names]. *)
Definition leaves_closure (ev : event) : Prop :=
  match ev with
  | ParentWrite _ _ => True
  | Updated kwargs =>
      NoDup kwargs.*1 ∧
      Forall (λ k, k ∉ "self" :: PyObject.managed ++ closure_names) kwargs.*1
  end.

(** ** Companies *)

Module Inventory.
Record t : Type := mk {
  description : string;
  products : list Product.t;
}.

(** [return category.get_products(self.products)] *)
Definition get_products_by_category {C : Type} `{CategoryWithIdProtocol C}
    (self : t) (category : C) : list Product.t :=
  get_products category (products self).

(** First product whose SKU is [sku]. *)
Definition get_product (self : t) (sku : string) : option Product.t :=
  List.find (λ p, bool_decide (Product.uuid p = sku)) (products self).
End Inventory.

Module Company.
Record t : Type := mk {
  name : string;
  owner : string;
  location : string;
  inventory : Inventory.t;
  employees : list Membership.t;
}.

(** [get_employees(role=None)]: [not role] holds for [None] and for the
    empty list. *)
Definition get_employees (self : t) (role : option (list string))
    : list User.t :=
  match role with
  | None | Some [] =>
      Membership.user <$>
        List.filter (λ m, Membership.active m) (employees self)
  | Some names =>
      Membership.user <$>
        List.filter
          (λ m, Membership.active m &&
                bool_decide (Role.name (Membership.role m) ∈ names))
          (employees self)
  end.

(** [self.employees.append(Membership(user, role, joined_date))] *)
Definition add_member (self : t) (user : User.t) (role : Role.t)
    (joined_date : Z) : t :=
  mk (name self) (owner self) (location self) (inventory self)
     (employees self ++ [Membership.new user role joined_date]).

(** [for membership in self.employees:
       if membership.user == user: return membership
     return None] *)
Definition find_membership (self : t) (user : User.t)
    : option Membership.t :=
  List.find (λ membership, bool_decide (Membership.user membership = user))
            (employees self).

(** [return self.find_membership(user) is not None] *)
Definition is_member (self : t) (user : User.t) : bool :=
  match find_membership self user with
  | Some _ => true
  | None => false
  end.

(** [membership = self.find_membership(user)
     if not membership: return False
     return membership.has_permission(code)] *)
Definition has_permission (self : t) (user : User.t) (code : string)
    : bool :=
  match find_membership self user with
  | None => false
  | Some membership => Membership.has_permission membership code
  end.
End Company.

(** ** The data store *)

Module AppData.
Record t : Type := mk {
  users : list User.t;
  companies : list Company.t;
  categories : list loc;
  roles : list Role.t;
}.

Definition find_role (self : t) (role_name : string) : option Role.t :=
  List.find (λ role, bool_decide (Role.name role = role_name)) (roles self).

(** [for cat in self.categories:
       if cat.cat_id == category_id: return cat
     return None], reading each object from the store. *)
Fixpoint find_category_in (h : Heap) (cats : list loc) (category_id : Z)
    : outcome (option loc) :=
  match cats with
  | [] => Returns None
  | cat :: rest =>
      match h !! cat with
      | None => DanglingRef
      | Some c =>
          if decide (Category.cat_id c = category_id)
          then Returns (Some cat)
          else find_category_in h rest category_id
      end
  end.

Definition find_category (h : Heap) (self : t) (category_id : Z)
    : outcome (option loc) :=
  find_category_in h (categories self) category_id.

(** [for company in self.companies:
       if company.name.lower() == company_name.lower(): return company
     return None]; [lower] is [str.lower]. *)
Definition find_company (lower : string → string) (self : t)
    (company_name : string) : option Company.t :=
  List.find
    (λ company,
       bool_decide (lower (Company.name company) = lower company_name))
    (companies self).

Definition inventories (self : t) : list Inventory.t :=
  Company.inventory <$> companies self.

Definition get_inventories (self : t) (company : option Company.t)
    : list Inventory.t :=
  match company with
  | Some c => [Company.inventory c]
  | None => inventories self
  end.
End AppData.

(** ** Session and context ([utils.py]) *)

(** [dt.timedelta(minutes=n)], in microseconds. *)
Definition timedelta_minutes (n : Z) : Z := n * 60 * 1000000.

Module Session.
Record t : Type := mk {
  _current_user : option User.t;
  company : option Company.t;
  last_visited_date : Z;
}.

(** [Session()]. The default of [last_visited_date] is the value
    [dt.datetime.now()] had when the class body was executed, once. *)
Definition new (class_created : Z) : t := mk None None class_created.
End Session.

Module Context.
Record t : Type := mk {
  data : AppData.t;
  _session : Session.t;
}.
End Context.

(** What a command runs against: the context object, the wall clock (the
    readings that successive calls of [dt.datetime.now()] return), the
    terminal and the two pickle files. *)
Record World : Type := mkWorld {
  context : Context.t;
  clock : nat → Z;
  ticks : nat;
  class_created : Z;
  stdout : list string;
  files : option Context.t;
}.

(** State and exceptions: a raised exception keeps the state reached. *)
Definition M (A : Type) : Type := World → result A * World.

#[global] Instance M_ret : MRet M := λ A a w, (Ok a, w).
#[global] Instance M_bind : MBind M := λ A B f m w,
  match m w with
  | (Ok a, w') => f a w'
  | (Raise e, w') => (Raise e, w')
  end.

Definition raise {A : Type} (e : exn) : M A := λ w, (Raise e, w).

(** [dt.datetime.now()] *)
Definition now : M Z := λ w,
  (Ok (clock w (ticks w)),
   mkWorld (context w) (clock w) (S (ticks w)) (class_created w)
           (stdout w) (files w)).

Definition get_context : M Context.t := λ w, (Ok (context w), w).

Definition put_context (c : Context.t) : M unit := λ w,
  (Ok (), mkWorld c (clock w) (ticks w) (class_created w) (stdout w) (files w)).

Definition get_session : M Session.t :=
  c ← get_context; mret (Context._session c).

Definition put_session (s : Session.t) : M unit :=
  c ← get_context; put_context (Context.mk (Context.data c) s).

(** [click.secho(msg, ...)]; colours are not recorded. *)
Definition secho (msg : string) : M unit := λ w,
  (Ok (), mkWorld (context w) (clock w) (ticks w) (class_created w)
                  (stdout w ++ [msg]) (files w)).

Module SessionOps.
(** The [current_user] property:
    [if self._current_user: self.last_visited_date = dt.datetime.now()
     return self._current_user] *)
Definition current_user : M (option User.t) :=
  s ← get_session;
  match Session._current_user s with
  | Some u =>
      t ← now;
      put_session (Session.mk (Some u) (Session.company s) t);;
      mret (Some u)
  | None => mret None
  end.

(** The setter: [self._current_user = user
                 self.last_visited_date = dt.datetime.now()] *)
Definition set_current_user (user : User.t) : M unit :=
  s ← get_session;
  t ← now;
  put_session (Session.mk (Some user) (Session.company s) t).
End SessionOps.

Module ContextOps.
Definition current_user : M (option User.t) := SessionOps.current_user.

(** [self._session = Session()] *)
Definition reset_session : M unit := λ w,
  put_session (Session.new (class_created w)) w.

(** [if self._session.last_visited_date
          < dt.datetime.now() - dt.timedelta(minutes=10):
        self.reset_session()
     return self._session.current_user is not None] *)
Definition user_logged_in : M bool :=
  s ← get_session;
  t ← now;
  (if bool_decide (Session.last_visited_date s < t - timedelta_minutes 10)
   then reset_session else mret ());;
  u ← SessionOps.current_user;
  mret (bool_decide (u ≠ None)).

Definition current_company : M (option Company.t) :=
  s ← get_session; mret (Session.company s).

Definition set_user (user : User.t) : M unit :=
  SessionOps.set_current_user user.

Definition set_company (company : Company.t) : M unit :=
  s ← get_session;
  put_session (Session.mk (Session._current_user s) (Some company)
                          (Session.last_visited_date s)).

(** [save_data(self.data, DATA_FILE); save_data(self._session, SESSION_FILE)] *)
Definition save : M unit := λ w,
  (Ok (), mkWorld (context w) (clock w) (ticks w) (class_created w)
                  (stdout w) (Some (context w))).
End ContextOps.

(** [with_app_context]: run the command, then [ctx.save()]. *)
Definition with_app_context {A : Type} (func : M A) : M A :=
  result ← func;
  ContextOps.save;;
  mret result.

(** [require_login]; the wrapper returns [None] when it refuses. *)
Definition require_login {A : Type} (func : M (option A)) : M (option A) :=
  with_app_context (
    logged_in ← ContextOps.user_logged_in;
    if negb logged_in
    then secho "Login required";; mret None
    else func).

Definition not_authorized : string := "Not Authorized to perform this action.".

(** The loop of the branch without a company; [true] when it ran to its
    end, [false] when it returned early. [ctx.current_user] is read anew
    for every permission. *)
Fixpoint check_user_permissions (permissions : list string) : M bool :=
  match permissions with
  | [] => mret true
  | permission :: rest =>
      u ← ContextOps.current_user;
      match u with
      | None =>
          raise (AttributeError
                   "'NoneType' object has no attribute 'has_permission'")
      | Some user =>
          if negb (User.has_permission user permission)
          then secho not_authorized;; mret false
          else check_user_permissions rest
      end
  end.

(** [company.has_permission(user=ctx.current_user, code=permission)] where
    the user may be [None]: no membership's user equals [None]. *)
Definition company_has_permission (company : Company.t)
    (user : option User.t) (code : string) : bool :=
  match user with
  | Some u => Company.has_permission company u code
  | None => false
  end.

(** The loop of the branch with a company; [ctx.current_company] and
    [ctx.current_user] are read anew for every permission. *)
Fixpoint check_company_permissions (permissions : list string) : M bool :=
  match permissions with
  | [] => mret true
  | permission :: rest =>
      c ← ContextOps.current_company;
      u ← ContextOps.current_user;
      match c with
      | None =>
          raise (AttributeError
                   "'NoneType' object has no attribute 'has_permission'")
      | Some company =>
          if negb (company_has_permission company u permission)
          then secho not_authorized;; mret false
          else check_company_permissions rest
      end
  end.

(** The wrapper that [require_permissions(permissions)] puts around a
    command, below [require_login]. *)
Definition permissions_wrapper {A : Type} (permissions : list string)
    (func : M (option A)) : M (option A) :=
  c ← ContextOps.current_company;
  passed ← (match c with
            | None => check_user_permissions permissions
            | Some _ => check_company_permissions permissions
            end);
  if passed : bool then func else (mret None : M (option A)).

Definition require_permissions {A : Type} (permissions : list string)
    (func : M (option A)) : M (option A) :=
  require_login (permissions_wrapper permissions func).

(** ** The [login] command ([cli.py]) *)

(** [next((x for x in xs if pred(x)), None)] *)
Definition next_or_none {A : Type} (pred : A → bool) (xs : list A)
    : option A :=
  List.find pred xs.

(** The body of [login], below [with_app_context]. [lower] is
    [str.lower], which the interpreter provides. An absent or empty
    [--company-name] is falsy. *)
Definition login_body (lower : string → string)
    (username password : string) (company_name : option string) : M unit :=
  ContextOps.reset_session;;
  ctx ← get_context;
  let _user :=
    next_or_none
      (λ u, bool_decide (lower (User.username u) = lower username))
      (AppData.users (Context.data ctx)) in
  match _user with
  | Some user =>
      if User.authenticate user password then
        ContextOps.set_user user;;
        secho ("Logged in as " +:+ username);;
        match company_name with
        | None | Some "" => mret ()
        | Some cname =>
            let company :=
              next_or_none (λ c, bool_decide (Company.name c = cname))
                           (AppData.companies (Context.data ctx)) in
            match company with
            | None => secho ("Company " +:+ cname +:+ " not found")
            | Some c =>
                if negb (Company.is_member c user)
                then secho ("User " +:+ username
                            +:+ " is not a member of company " +:+ cname)
                else ContextOps.set_company c;;
                     secho ("Logged in company " +:+ Company.name c)
            end
        end
      else secho "Invalid credentials"
  | None => secho "Invalid credentials"
  end.

Definition login (lower : string → string)
    (username password : string) (company_name : option string) : M unit :=
  with_app_context (login_body lower username password company_name).

(** ** The [logout] and [employees] commands ([cli.py]) *)

(** [ctx.reset_session(); click.secho("Logged out")] *)
Definition logout_body : M unit :=
  ContextOps.reset_session;;
  secho "Logged out".

Definition logout : M unit := with_app_context logout_body.

(** [for u in _employees: click.secho(f"- {u.username}")] *)
Fixpoint secho_employees (employees : list User.t) : M unit :=
  match employees with
  | [] => mret ()
  | u :: rest => secho ("- " +:+ User.username u);; secho_employees rest
  end.

(** [for _company in companies:
       _employees = _company.get_employees()
       click.secho(f"Company {_company.name}:")
       for u in _employees: ...] *)
Fixpoint secho_companies (companies : list Company.t) : M unit :=
  match companies with
  | [] => mret ()
  | _company :: rest =>
      let _employees := Company.get_employees _company None in
      secho ("Company " +:+ Company.name _company +:+ ":");;
      secho_employees _employees;;
      secho_companies rest
  end.

(** The body of the [employees] command; it returns [None]. *)
Definition employees_body : M (option unit) :=
  c ← ContextOps.current_company;
  companies ← (match c with
               | Some company => mret [company]
               | None =>
                   ctx ← get_context;
                   mret (AppData.companies (Context.data ctx))
               end);
  secho_companies companies;;
  mret None.

(** [@require_permissions([PermissionCode.COMPANY_VIEW])] *)
Definition employees : M (option unit) :=
  require_permissions [PermissionCode.COMPANY_VIEW] employees_body.

(** ** The [inventory view] command ([cli.py]) *)

(** What a reference that is not in the store reads as; Python has no
    such reference. *)
#[global] Instance category_inhabited : Inhabited Category.t :=
  populate (Category.mk 0 "" "" None).

(** [for p in _inventory.products:
       click.secho(f"- {p.uuid}: {p.name} ({p.category.name}) ...")].
    [render] is the f-string, given the product and the name of its
    category; reading [.name] of a [None] category raises before
    anything of the line is printed. *)
Fixpoint secho_products (render : Product.t → string → string) (h : Heap)
    (products : list Product.t) : M unit :=
  match products with
  | [] => mret ()
  | p :: rest =>
      match Product.category p with
      | None =>
          raise (AttributeError "'NoneType' object has no attribute 'name'")
      | Some l =>
          secho (render p (Category.name (h !!! l)));;
          secho_products render h rest
      end
  end.

(** The name that a line of the listing shows for a product with a
    category. *)
Definition category_name (h : Heap) (p : Product.t) : string :=
  match Product.category p with
  | Some l => Category.name (h !!! l)
  | None => ""
  end.

(** [for _inventory in ctx.data.get_inventories(company):
       click.secho(f"Inventory: {_inventory.description}")
       for p in _inventory.products: ...] *)
Fixpoint secho_inventories (render : Product.t → string → string) (h : Heap)
    (inventories : list Inventory.t) : M unit :=
  match inventories with
  | [] => mret ()
  | _inventory :: rest =>
      secho ("Inventory: " +:+ Inventory.description _inventory);;
      secho_products render h (Inventory.products _inventory);;
      secho_inventories render h rest
  end.

Definition get_inventory_list_body (render : Product.t → string → string)
    (h : Heap) : M (option unit) :=
  company ← ContextOps.current_company;
  ctx ← get_context;
  secho_inventories render h
    (AppData.get_inventories (Context.data ctx) company);;
  mret None.

(** [@require_permissions([PermissionCode.VIEW])] *)
Definition get_inventory_list (render : Product.t → string → string)
    (h : Heap) : M (option unit) :=
  require_permissions [PermissionCode.VIEW]
    (get_inventory_list_body render h).

(** ** Worlds before and after a command *)

(** Two worlds in which the same user is logged in to the same company,
    with the same data, terminal and files; the clock may have been read
    and the session touched in between. *)
Definition same_login (w w' : World) : Prop :=
  Context.data (context w') = Context.data (context w) ∧
  Session._current_user (Context._session (context w'))
  = Session._current_user (Context._session (context w)) ∧
  Session.company (Context._session (context w'))
  = Session.company (Context._session (context w)) ∧
  clock w' = clock w ∧ class_created w' = class_created w ∧
  stdout w' = stdout w ∧ files w' = files w.

(** The world after [click.secho(msg)]. *)
Definition said (msg : string) (w : World) : World := (secho msg w).2.

(** The world after the lines were printed. *)
Definition printed (lines : list string) (w : World) : World :=
  mkWorld (context w) (clock w) (ticks w) (class_created w)
          (stdout w ++ lines) (files w).

(** Whether the session is older than ten minutes at the next reading of
    the clock. *)
Definition stale (w : World) : Prop :=
  Session.last_visited_date (Context._session (context w))
  < clock w (ticks w) - timedelta_minutes 10.

(** The world with the session replaced. *)
Definition with_session (w : World) (s : Session.t) : World :=
  mkWorld (Context.mk (Context.data (context w)) s) (clock w) (ticks w)
          (class_created w) (stdout w) (files w).

(** ** Sample data

    The categories and the first product of [AppData.init_default], and
    small stores used to evaluate the code. *)

Module Sample.
Definition vehicle_ref : loc := 0%nat.
Definition water_vehicle_ref : loc := 1%nat.
Definition parts_ref : loc := 2%nat.
Definition yacht_ref : loc := 3%nat.
Definition boat_ref : loc := 4%nat.
Definition motor_ref : loc := 5%nat.
Definition sail_ref : loc := 6%nat.
Definition electronics_ref : loc := 7%nat.

Definition vehicle : Category.t :=
  Category.mk 1 "Vehicle" "All kind of vehicles" None.
Definition water_vehicle : Category.t :=
  Category.mk 100 "Water Vehicle" "Boats, yachts, etc" (Some vehicle_ref).
Definition parts : Category.t :=
  Category.mk 2 "Parts" "Parts for vehicles" None.
Definition yacht_cat : Category.t :=
  Category.mk 1000 "Yacht" "Luxury yachts" (Some water_vehicle_ref).
Definition boat_cat : Category.t :=
  Category.mk 1001 "Boat" "Boats for all purposes" (Some water_vehicle_ref).
Definition motor_cat : Category.t :=
  Category.mk 10000 "Motors" "Motors" (Some parts_ref).
Definition sail_cat : Category.t :=
  Category.mk 1002 "Sailboats" "Boats powered by sails"
              (Some water_vehicle_ref).
Definition electronics_cat : Category.t :=
  Category.mk 3 "Electronics" "Electronic equipment for boats" None.

Definition heap : Heap :=
  list_to_map
    [(vehicle_ref, vehicle); (water_vehicle_ref, water_vehicle);
     (parts_ref, parts); (yacht_ref, yacht_cat); (boat_ref, boat_cat);
     (motor_ref, motor_cat); (sail_ref, sail_cat);
     (electronics_ref, electronics_cat)].

(** [yacht1], built with the given fuel. *)
Definition yacht1 (fuel : nat) : outcome Product.t :=
  Product.__init__ fuel heap "SKU001" "Yacht X" "Luxury yacht"
    (Float 700000 0) 1654041600000000 true (Some yacht_ref)
    (Product.Yacht (Float 29 (-1)) (Float 5404319552844595 (-50))
                   (Float 2 0) 8 "Diesel" 800).

(** [yacht1] as [__init__] leaves it. *)
Definition yacht1_built : Product.t :=
  Product.mk "SKU001" "Yacht X" "Luxury yacht" (Float 700000 0)
    1654041600000000 true (Some yacht_ref)
    (Product.Yacht (Float 29 (-1)) (Float 5404319552844595 (-50))
                   (Float 2 0) 8 "Diesel" 800)
    {[1000; 100; 1]}.

Definition categories : list loc :=
  [yacht_ref; boat_ref; motor_ref; vehicle_ref; water_vehicle_ref;
   parts_ref; sail_ref; electronics_ref].

(** Roles, users and the first company of [init_default]. *)
Definition user_role : Role.t :=
  Role.mk "user" [Permission.new PermissionCode.VIEW].
Definition manager_role : Role.t :=
  Role.mk "company_manager"
    [Permission.new PermissionCode.VIEW;
     Permission.new PermissionCode.COMPANY_VIEW;
     Permission.new PermissionCode.COMPANY_EDIT].
Definition worker_role : Role.t :=
  Role.mk "company_worker"
    [Permission.new PermissionCode.VIEW;
     Permission.new PermissionCode.COMPANY_VIEW].
Definition superuser_role : Role.t :=
  Role.mk "superuser" (Permission.new <$> PermissionCode.members).

Definition superuser : User.t := User.mk "superuser" "superuser" [superuser_role].
Definition alice : User.t := User.mk "Alice" "alice" [user_role].
Definition bob : User.t := User.mk "Bob" "bob" [user_role].
Definition user : User.t := User.mk "user" "user" [user_role].

Definition c1_manager : Membership.t :=
  Membership.mk alice manager_role 1577836800000000 true.

Definition company_1 : Company.t :=
  Company.mk "Boat Store" "Trump" "Sydney"
    (Inventory.mk "Boat Store Main Warehouse" [yacht1_built]) [c1_manager].

(** The same company after Bob joined as a manager and was deactivated. *)
Definition company_1_with_bob : Company.t :=
  Company.mk "Boat Store" "Trump" "Sydney"
    (Inventory.mk "Boat Store Main Warehouse" [yacht1_built])
    [c1_manager; Membership.mk bob manager_role 1620777600000000 false].

Definition data : AppData.t :=
  AppData.mk [alice; bob; user; superuser] [company_1] categories
             [user_role; manager_role; worker_role].

(** A world whose clock starts at [t0] and advances by one second at
    every reading; the class [Session] was created five seconds before
    [t0]. *)
Definition t0 : Z := 1700000000000000.
Definition world (s : Session.t) : World :=
  mkWorld (Context.mk data s) (λ n, t0 + 1000000 * Z.of_nat n) 0%nat
          (t0 - 5000000) [] None.

(** ASCII lower case, enough for the names of the sample. *)
Fixpoint ascii_lower (s : string) : string :=
  match s with
  | EmptyString => EmptyString
  | String a rest =>
      let n := Ascii.nat_of_ascii a in
      String (if ((65 <=? n) && (n <=? 90))%nat
              then Ascii.ascii_of_nat (n + 32) else a)
             (ascii_lower rest)
  end.

(** A store in which two objects on one chain carry the same id:
    [boats -> water -> vehicle -> None] with ids 7, 7 and 8. *)
Definition dup_boats : Category.t :=
  Category.mk 7 "Boat" "Boats for all purposes" (Some 1%nat).
Definition dup_water : Category.t :=
  Category.mk 7 "Water Vehicle" "Boats, yachts, etc" (Some 2%nat).
Definition dup_vehicle : Category.t :=
  Category.mk 8 "Vehicle" "All kind of vehicles" None.
Definition dup_heap : Heap :=
  list_to_map [(0%nat, dup_boats); (1%nat, dup_water); (2%nat, dup_vehicle)].

(** A store with a cycle of two objects. *)
Definition cyc0 : Category.t := Category.mk 10 "A" "first" (Some 1%nat).
Definition cyc1 : Category.t := Category.mk 11 "B" "second" (Some 0%nat).
Definition cyc_heap : Heap := list_to_map [(0%nat, cyc0); (1%nat, cyc1)].
End Sample.

(** * Properties *)

(** ** The closure walk *)

Section closure.
Implicit Types (h : Heap) (categories : gset Z) (category : option loc).

Lemma walk_None fuel h categories :
  Product.walk fuel h categories None = Returns categories.
Proof. by destruct fuel. Qed.

(** More fuel does not change a result. *)
Lemma walk_mono n m h categories category s :
  Product.walk n h categories category = Returns s →
  (n ≤ m)%nat →
  Product.walk m h categories category = Returns s.
Proof.
  revert m categories category.
  induction n as [|n IH]; intros m categories [l|] Hw Hle;
    try (rewrite walk_None in Hw |- *; done); simpl in Hw; [done|].
  destruct m as [|m]; [lia|]. simpl.
  destruct (h !! l) as [c|]; [|done].
  destruct (decide _); apply IH; (done || lia).
Qed.

Lemma ids_elem h l c : h !! l = Some c → Category.cat_id c ∈ Store.ids h.
Proof.
  intros Hl. unfold Store.ids.
  apply elem_of_list_to_set, list_elem_of_fmap. exists c. split; [done|].
  apply list_elem_of_fmap. exists (l, c). split; [done|].
  by apply elem_of_map_to_list.
Qed.

(** Every iteration that does not stop the loop adds an id of the store
    that the set did not hold, so the ids of the store bound the number
    of iterations. *)
Lemma walk_terminates fuel h categories category :
  Store.closed h →
  (∀ l, category = Some l → is_Some (h !! l)) →
  categories ⊆ Store.ids h →
  (size (Store.ids h ∖ categories) < fuel)%nat →
  ∃ s, Product.walk fuel h categories category = Returns s.
Proof.
  intros Hclosed. revert categories category.
  induction fuel as [|fuel IH]; intros categories [l|] Hin Hsub Hsize;
    try (rewrite walk_None; eauto; fail); [lia|].
  destruct (Hin l eq_refl) as [c Hc]. simpl. rewrite Hc.
  destruct (decide _) as [|Hnew]; [rewrite walk_None; eauto|].
  pose proof (ids_elem _ _ _ Hc) as Hid.
  apply IH.
  - intros p Hp. by eapply Hclosed.
  - set_solver.
  - assert (Store.ids h ∖ (categories ∪ {[Category.cat_id c]})
            ⊂ Store.ids h ∖ categories) as Hlt by set_solver.
    apply subset_size in Hlt. lia.
Qed.

(** What the loop returns: the ids of the objects it walked over, which
    are pairwise distinct and new; it stopped at [None] or at an object
    whose id it already held. *)
Lemma walk_returns fuel h categories category s :
  Product.walk fuel h categories category = Returns s →
  ∃ cs stop,
    Store.chain h category cs stop ∧
    NoDup (Category.cat_id <$> cs) ∧
    (∀ c, c ∈ cs → Category.cat_id c ∉ categories) ∧
    s = categories ∪ list_to_set (Category.cat_id <$> cs) ∧
    (stop = None ∨
     ∃ l c, stop = Some l ∧ h !! l = Some c ∧ Category.cat_id c ∈ s).
Proof.
  revert categories category.
  induction fuel as [|fuel IH]; intros categories [l|] Hw;
    try (rewrite walk_None in Hw; injection Hw as <-;
         exists [], None; simpl; split_and!;
         [done|constructor|set_solver|set_solver|by left]);
    simpl in Hw; [done|].
  destruct (h !! l) as [c|] eqn:Hc; [|done].
  destruct (decide _) as [Hold|Hnew].
  - rewrite walk_None in Hw. injection Hw as <-.
    exists [], (Some l). simpl. split_and!;
      [done|constructor|set_solver|set_solver|].
    right. by exists l, c.
  - destruct (IH _ _ Hw) as (cs & stop & Hchain & Hnd & Hfresh & -> & Hstop).
    exists (c :: cs), stop. simpl. split_and!.
    + by exists l.
    + constructor; [|done]. intros (c' & Heq & Hc')%list_elem_of_fmap.
      apply Hfresh in Hc'. set_solver.
    + intros c' [->|Hc']%elem_of_cons; [done|].
      apply Hfresh in Hc'. set_solver.
    + set_solver.
    + done.
Qed.

(** A chain that ends in [None] and repeats no id is walked to its end. *)
Lemma walk_chain fuel h categories category cs :
  Store.chain h category cs None →
  NoDup (Category.cat_id <$> cs) →
  (∀ c, c ∈ cs → Category.cat_id c ∉ categories) →
  (length cs ≤ fuel)%nat →
  Product.walk fuel h categories category
  = Returns (categories ∪ list_to_set (Category.cat_id <$> cs)).
Proof.
  revert fuel categories category.
  induction cs as [|c cs IH]; intros fuel categories category Hchain Hnd Hfresh Hlen;
    simpl in Hchain.
  - subst. rewrite walk_None. f_equal. set_solver.
  - destruct Hchain as (l & -> & Hc & Hchain).
    destruct fuel as [|fuel]; [simpl in Hlen; lia|]. simpl. rewrite Hc.
    rewrite fmap_cons in Hnd. apply NoDup_cons in Hnd as [Hhd Hnd].
    rewrite decide_False by (apply Hfresh; left).
    rewrite (IH fuel _ _ Hchain Hnd).
    + f_equal. set_solver.
    + intros c' Hc'. rewrite elem_of_union, elem_of_singleton.
      intros [Hin|Heq].
      * by apply (Hfresh c'); [right|].
      * apply Hhd, list_elem_of_fmap. by exists c'.
    + simpl in Hlen. lia.
Qed.
End closure.

(** C3. Building a [Product] on a cycle of two categories returns, with
    the closure [{c0.cat_id, c1.cat_id}]; and on every store, from every
    category, the walk returns once it has enough fuel: it has collected
    the ids of the objects it walked over, pairwise distinct, and it
    stopped at a [None] parent or at an object whose id it already
    held. *)
Theorem post_init_returns_on_cycles :
  (∀ h l0 l1 c0 c1 fuel uuid name description price produced_date is_new kind,
     h !! l0 = Some c0 → h !! l1 = Some c1 →
     Category.parent c0 = Some l1 → Category.parent c1 = Some l0 →
     (3 ≤ fuel)%nat →
     ∃ p, Product.__init__ fuel h uuid name description price produced_date
            is_new (Some l0) kind = Returns p ∧
          Product._categories_ids p
          = {[Category.cat_id c0; Category.cat_id c1]})
  ∧
  (∀ h category,
     Store.closed h → (∀ l, category = Some l → is_Some (h !! l)) →
     ∃ n s cs stop,
       (∀ fuel, (n ≤ fuel)%nat →
                Product.__post_init__ fuel h category = Returns s) ∧
       Store.chain h category cs stop ∧
       NoDup (Category.cat_id <$> cs) ∧
       s = list_to_set (Category.cat_id <$> cs) ∧
       (stop = None ∨
        ∃ l c, stop = Some l ∧ h !! l = Some c ∧ Category.cat_id c ∈ s)).
Proof.
  split.
  - intros h l0 l1 c0 c1 fuel uuid name description price produced_date
      is_new kind H0 H1 P0 P1 Hfuel.
    assert (Product.walk 3 h ∅ (Some l0)
            = Returns {[Category.cat_id c0; Category.cat_id c1]}) as Hw.
    { simpl. rewrite H0. rewrite decide_False by set_solver.
      rewrite P0, H1. destruct (decide _) as [Hsame|Hnew].
      - f_equal. set_solver.
      - rewrite P1, H0. rewrite decide_True by set_solver.
        f_equal. set_solver. }
    unfold Product.__init__, Product.__post_init__.
    rewrite (walk_mono _ _ _ _ _ _ Hw Hfuel). eauto.
  - intros h category Hclosed Hin.
    destruct (walk_terminates (S (size (Store.ids h))) h ∅ category)
      as [s Hs]; [done|done|set_solver| |].
    { assert (size (Store.ids h ∖ ∅) ≤ size (Store.ids h))%nat
        by (apply subseteq_size; set_solver). lia. }
    destruct (walk_returns _ _ _ _ _ Hs)
      as (cs & stop & Hchain & Hnd & _ & -> & Hstop).
    exists (S (size (Store.ids h))),
      (∅ ∪ list_to_set (Category.cat_id <$> cs)), cs, stop.
    split_and!; [|done|done|set_solver|done].
    intros fuel Hfuel. unfold Product.__post_init__. by eapply walk_mono.
Qed.

Lemma post_init_returns_on_cycles_witness :
  ∃ p, Product.__init__ 3 Sample.cyc_heap "SKU" "n" "d" (Float 1 0) 0 true
         (Some 0%nat) Product.Base = Returns p ∧
       Product._categories_ids p = {[10; 11]}.
Proof.
  apply (proj1 post_init_returns_on_cycles Sample.cyc_heap 0%nat 1%nat
           Sample.cyc0 Sample.cyc1 3%nat);
    [reflexivity | reflexivity | reflexivity | reflexivity | lia].
Defined.

(** C2, as stated, fails where two objects of the chain carry the same
    id: the chain [boats(7) -> water(7) -> vehicle(8) -> None] has no
    cycle, the walk stops at [water], and the product does not have the
    category [vehicle] of its own chain. *)
Lemma closure_misses_chain_after_repeated_id :
  Store.chain Sample.dup_heap (Some 0%nat)
    [Sample.dup_boats; Sample.dup_water; Sample.dup_vehicle] None ∧
  ∃ p, Product.__init__ 3 Sample.dup_heap "SKU002" "Boat A" "Affordable boat"
         (Float 35000 0) 1673740800000000 true (Some 0%nat) Product.Base
       = Returns p ∧
       Product.has_category p Sample.dup_vehicle = false ∧
       Product._categories_ids p
       ≠ list_to_set (Category.cat_id <$>
           [Sample.dup_boats; Sample.dup_water; Sample.dup_vehicle]).
Proof.
  split.
  - simpl. exists 0%nat. split_and!; [done..|].
    exists 1%nat. split_and!; [done..|]. by exists 2%nat.
  - eexists. split; [reflexivity|]. split; [reflexivity|].
    simpl. intros Heq.
    assert (8 ∈ (∅ ∪ {[7]} : gset Z)) as Hin by (rewrite Heq; set_solver).
    set_solver.
Qed.

(** C2, amended. For a chain [c0 -> ... -> cn -> None] whose ids are
    pairwise distinct, the closure cached at construction is the set of
    the ids of the chain, so [has_category] holds exactly for the
    categories whose id is on the chain; with [category = None] the
    closure is empty and [has_category] is false for every category. *)
Theorem closure_of_chain_with_distinct_ids :
  (∀ h category cs fuel uuid name description price produced_date is_new kind,
     Store.chain h category cs None →
     NoDup (Category.cat_id <$> cs) →
     (length cs ≤ fuel)%nat →
     ∃ p, Product.__init__ fuel h uuid name description price produced_date
            is_new category kind = Returns p ∧
          Product._categories_ids p = list_to_set (Category.cat_id <$> cs) ∧
          ∀ c : Category.t,
            Product.has_category p c = true
            ↔ Category.cat_id c ∈ Category.cat_id <$> cs)
  ∧
  (∀ h fuel uuid name description price produced_date is_new kind,
     ∃ p, Product.__init__ fuel h uuid name description price produced_date
            is_new None kind = Returns p ∧
          Product._categories_ids p = ∅ ∧
          ∀ c : Category.t, Product.has_category p c = false).
Proof.
  split.
  - intros h category cs fuel uuid name description price produced_date
      is_new kind Hchain Hnd Hlen.
    unfold Product.__init__, Product.__post_init__.
    rewrite (walk_chain fuel h ∅ category cs) by (done || set_solver).
    eexists. split; [done|]. simpl. split; [set_solver|].
    intros c. unfold Product.has_category. simpl.
    rewrite bool_decide_eq_true. unfold cat_id, Category.has_cat_id.
    set_solver.
  - intros. unfold Product.__init__, Product.__post_init__.
    rewrite walk_None. eexists. split; [done|]. split; [done|].
    intros c. unfold Product.has_category. simpl.
    apply bool_decide_eq_false. set_solver.
Qed.

Lemma closure_of_chain_with_distinct_ids_witness :
  ∃ p, Sample.yacht1 3 = Returns p ∧
       Product._categories_ids p
       = list_to_set (Category.cat_id <$>
           [Sample.yacht_cat; Sample.water_vehicle; Sample.vehicle]) ∧
       ∀ c : Category.t,
         Product.has_category p c = true
         ↔ Category.cat_id c ∈ Category.cat_id <$>
             [Sample.yacht_cat; Sample.water_vehicle; Sample.vehicle].
Proof.
  apply (proj1 closure_of_chain_with_distinct_ids Sample.heap
           (Some Sample.yacht_ref)
           [Sample.yacht_cat; Sample.water_vehicle; Sample.vehicle] 3%nat).
  - simpl. exists Sample.yacht_ref. split_and!; [done..|].
    exists Sample.water_vehicle_ref. split_and!; [done..|].
    by exists Sample.vehicle_ref.
  - simpl. repeat constructor; set_solver.
  - simpl. lia.
Defined.

(** ** Filtering by category *)

Lemma filter_sublist_bool {A : Type} (f : A → bool) (l : list A) :
  sublist (List.filter f l) l.
Proof.
  induction l as [|x l IH]; simpl; [constructor|].
  destruct (f x); by constructor.
Qed.

Lemma has_category_spec {C : Type} `{HasCatId C} (p : Product.t) (c : C) :
  has_category p c = bool_decide (cat_id c ∈ Product._categories_ids p).
Proof. reflexivity. Qed.

(** C4. [get_products] keeps, in the order of the input, exactly the
    candidates whose cached closure holds the id of the category;
    [Inventory.get_products_by_category] hands the products of the
    inventory to it. With [Vehicle(1) <- WaterVehicle(100) <- Yacht(1000)]
    and a product in [Yacht], [Vehicle] lists the product and [Parts(2)]
    lists nothing. *)
Theorem get_products_is_closure_filter :
  (∀ (self : Category.t) (candidates : list Product.t),
     Category.get_products self candidates
     = List.filter
         (λ p, bool_decide (Category.cat_id self ∈ Product._categories_ids p))
         candidates ∧
     sublist (Category.get_products self candidates) candidates ∧
     (∀ p, p ∈ Category.get_products self candidates
           ↔ p ∈ candidates ∧
             Category.cat_id self ∈ Product._categories_ids p) ∧
     (∀ inv, Inventory.products inv = candidates →
             Inventory.get_products_by_category inv self
             = Category.get_products self candidates))
  ∧
  (∃ product, Sample.yacht1 3 = Returns product ∧
     Category.get_products Sample.vehicle [product] = [product] ∧
     Category.get_products Sample.parts [product] = [] ∧
     Inventory.get_products_by_category
       (Inventory.mk "Boat Store Main Warehouse" [product]) Sample.vehicle
     = [product]).
Proof.
  split.
  - intros self candidates. split_and!.
    + reflexivity.
    + apply filter_sublist_bool.
    + intros p. unfold Category.get_products.
      rewrite !list_elem_of_In, filter_In, has_category_spec,
        bool_decide_eq_true.
      reflexivity.
    + intros inv <-. reflexivity.
  - eexists. split; [reflexivity|]. split_and!; reflexivity.
Qed.

(** ** The cached closure and later writes to the store *)

Lemma set_parent_lookup h l par l' c' :
  Store.set_parent h l par !! l' = Some c' →
  ∃ c, h !! l' = Some c ∧ Category.cat_id c = Category.cat_id c'.
Proof.
  unfold Store.set_parent. destruct (h !! l) as [c0|] eqn:Hl; [|eauto].
  destruct (decide (l = l')) as [->|Hne].
  - rewrite lookup_insert_eq. intros [= <-]. eauto.
  - rewrite lookup_insert_ne by done. eauto.
Qed.

Lemma set_parents_lookup writes h l' c' :
  Store.set_parents h writes !! l' = Some c' →
  ∃ c, h !! l' = Some c ∧ Category.cat_id c = Category.cat_id c'.
Proof.
  revert h. induction writes as [|[l par] writes IH]; intros h;
    unfold Store.set_parents; simpl; [eauto|].
  intros (c1 & Hc1 & <-)%IH.
  apply set_parent_lookup in Hc1 as (c & Hc & <-). eauto.
Qed.

(** The closure is stale after a write to a parent link: detaching
    [Water Vehicle] from [Vehicle] leaves [yacht1] in [Vehicle], where
    a product built afterwards is not. *)
Lemma closure_is_stale_after_write :
  ∃ p p', Sample.yacht1 3 = Returns p ∧
    Product.__init__ 3
      (Store.set_parent Sample.heap Sample.water_vehicle_ref None)
      "SKU006" "Ocean Master 48" "Premium ocean-going yacht"
      (Float 1200000 0) 1681948800000000 true (Some Sample.yacht_ref)
      Product.Base = Returns p' ∧
    Product.has_category p Sample.vehicle = true ∧
    Product.has_category p' Sample.vehicle = false.
Proof. do 2 eexists. split_and!; reflexivity. Qed.

(** ** Categories are told apart by id *)

Lemma find_category_in_found h cats category_id l :
  AppData.find_category_in h cats category_id = Returns (Some l) →
  l ∈ cats ∧ ∃ c, h !! l = Some c ∧ Category.cat_id c = category_id.
Proof.
  induction cats as [|cat rest IH]; simpl; [done|].
  destruct (h !! cat) as [c|] eqn:Hc; [|done].
  destruct (decide _) as [Hid|Hid].
  - intros [= <-]. split; [left|eauto].
  - intros [Hin Hfound]%IH. split; [by right|done].
Qed.

(** C10. [has_category] and [get_products] look at the id of the
    category object only: two objects with the same id give the same
    answers, and the object that [find_category] returns for the id of
    an ancestor of a product filters products as that ancestor does. *)
Theorem category_membership_by_id :
  (∀ (C C' : Type) `{HasCatId C} `{HasCatId C'} (p : Product.t)
     (c : C) (c' : C'),
     cat_id c = cat_id c' →
     Product.has_category p c = Product.has_category p c')
  ∧
  (∀ (c c' : Category.t) (products : list Product.t),
     Category.cat_id c = Category.cat_id c' →
     Category.get_products c products = Category.get_products c' products)
  ∧
  (∀ h data (ancestor : Category.t) l c (products : list Product.t),
     AppData.find_category h data (Category.cat_id ancestor)
     = Returns (Some l) →
     h !! l = Some c →
     Category.get_products c products
     = Category.get_products ancestor products).
Proof.
  split_and!.
  - intros C C' HC HC' p c c' Hid. unfold Product.has_category.
    by rewrite Hid.
  - intros c c' products Hid. unfold Category.get_products.
    apply filter_ext. intros p. rewrite !has_category_spec.
    unfold cat_id, Category.has_cat_id. by rewrite Hid.
  - intros h data ancestor l c products Hfind Hc.
    apply find_category_in_found in Hfind as (_ & c0 & Hc0 & Hid).
    assert (c0 = c) as -> by congruence.
    unfold Category.get_products.
    apply filter_ext. intros p. rewrite !has_category_spec.
    unfold cat_id, Category.has_cat_id. by rewrite Hid.
Qed.

Lemma category_membership_by_id_witness :
  ∃ product, Sample.yacht1 3 = Returns product ∧
    Category.get_products Sample.vehicle [product]
    = Category.get_products
        (Category.mk 1 "Vehicle (reloaded)" "a copy from another pickle" None)
        [product].
Proof.
  eexists. split; [reflexivity|].
  apply (proj2 (proj2 category_membership_by_id) Sample.heap
           (AppData.mk [] [] Sample.categories [])
           (Category.mk 1 "Vehicle (reloaded)" "a copy from another pickle" None)
           Sample.vehicle_ref Sample.vehicle);
    reflexivity.
Defined.

(** ** Membership *)

Lemma find_first {A : Type} (f : A → bool) (l : list A) (x : A) :
  List.find f l = Some x ↔
  ∃ before after, l = before ++ x :: after ∧ f x = true ∧
                  ∀ y, y ∈ before → f y = false.
Proof.
  revert x. induction l as [|a l IH]; intros x; simpl.
  - split; [done|]. intros (before & after & Heq & _).
    by destruct before.
  - destruct (f a) eqn:Hfa.
    + split.
      * intros [= <-]. exists [], l. split_and!; [done|done|].
        intros y Hy. by apply elem_of_nil in Hy.
      * intros ([|b before] & after & Heq & Hfx & Hbefore).
        -- by injection Heq as ->.
        -- injection Heq as -> ->.
           rewrite Hbefore in Hfa by left. done.
    + rewrite IH. split.
      * intros (before & after & -> & Hfx & Hbefore).
        exists (a :: before), after. split_and!; [done|done|].
        intros y [->|Hy]%elem_of_cons; [done|by apply Hbefore].
      * intros ([|b before] & after & Heq & Hfx & Hbefore).
        -- injection Heq as ->. by rewrite Hfx in Hfa.
        -- injection Heq as -> ->. exists before, after.
           split_and!; [done|done|]. intros y Hy. apply Hbefore. by right.
Qed.

Lemma find_membership_None (c : Company.t) (u : User.t) :
  Company.find_membership c u = None ↔
  ∀ m, m ∈ Company.employees c → Membership.user m ≠ u.
Proof.
  unfold Company.find_membership. split.
  - intros Hnone m Hm%list_elem_of_In.
    pose proof (find_none _ _ Hnone m Hm) as Hf. simpl in Hf.
    by apply bool_decide_eq_false in Hf.
  - intros Hall. destruct (List.find _ _) as [m|] eqn:Hfind; [|done].
    apply find_some in Hfind as [Hm%list_elem_of_In Hf].
    apply bool_decide_eq_true in Hf. by apply Hall in Hm.
Qed.

(** C6. [find_membership] returns the first membership of the user in
    insertion order, whatever its [active] flag; [is_member] holds as
    soon as some membership of the user exists, and [has_permission]
    grants what the role of that first membership grants, active or
    not; [get_employees] lists users of active memberships only. So
    Bob, deactivated in [Boat Store], is still a member with the rights
    of a manager, and is not listed as an employee. *)
Theorem membership_lookup_ignores_active :
  (∀ (c : Company.t) (u : User.t),
    (∀ m, Company.find_membership c u = Some m ↔
          ∃ before after,
            Company.employees c = before ++ m :: after ∧
            Membership.user m = u ∧
            ∀ m', m' ∈ before → Membership.user m' ≠ u) ∧
    (Company.is_member c u = true ↔
     ∃ m, m ∈ Company.employees c ∧ Membership.user m = u) ∧
    (∀ code,
       Company.has_permission c u code = true ↔
       ∃ m, Company.find_membership c u = Some m ∧
            ∃ perm, perm ∈ Role.permissions (Membership.role m) ∧
                    Permission.perm_code perm = code) ∧
    (∀ role, u ∈ Company.get_employees c role →
             ∃ m, m ∈ Company.employees c ∧ Membership.user m = u ∧
                  Membership.active m = true) ∧
    (u ∈ Company.get_employees c None ↔
     ∃ m, m ∈ Company.employees c ∧ Membership.user m = u ∧
          Membership.active m = true))
  ∧
  (Company.find_membership Sample.company_1_with_bob Sample.bob
   = Some (Membership.mk Sample.bob Sample.manager_role
                         1620777600000000 false) ∧
   Company.is_member Sample.company_1_with_bob Sample.bob = true ∧
   Company.has_permission Sample.company_1_with_bob Sample.bob
     PermissionCode.COMPANY_EDIT = true ∧
   Company.get_employees Sample.company_1_with_bob None = [Sample.alice]).
Proof.
  split; [|split_and!; reflexivity].
  intros c u. split_and!.
  - intros m. unfold Company.find_membership. rewrite find_first.
    split; intros (before & after & Heq & Hu & Hbefore);
      exists before, after; split_and!; try done.
    + by apply bool_decide_eq_true in Hu.
    + intros m' Hm'. apply Hbefore in Hm'.
      by apply bool_decide_eq_false in Hm'.
    + by apply bool_decide_eq_true.
    + intros m' Hm'. apply bool_decide_eq_false. by apply Hbefore.
  - unfold Company.is_member.
    destruct (Company.find_membership c u) as [m|] eqn:Hfind.
    + split; [intros _|done].
      apply find_some in Hfind as [Hm%list_elem_of_In Hf].
      apply bool_decide_eq_true in Hf. eauto.
    + split; [done|]. intros (m & Hm & Hu).
      rewrite find_membership_None in Hfind. by apply Hfind in Hm.
  - intros code. unfold Company.has_permission.
    destruct (Company.find_membership c u) as [m|]; [|naive_solver].
    unfold Membership.has_permission. rewrite existsb_exists. split.
    + intros (perm & Hperm%list_elem_of_In & Hcode%bool_decide_eq_true).
      eauto.
    + intros (m' & [= <-] & perm & Hperm & Hcode).
      exists perm. split; [by apply list_elem_of_In|].
      by apply bool_decide_eq_true.
  - intros role Hin. unfold Company.get_employees in Hin.
    destruct role as [[|n names]|];
      apply list_elem_of_fmap in Hin as (m & -> & Hm);
      apply list_elem_of_In, filter_In in Hm as [Hm%list_elem_of_In Hact];
      exists m; split_and!; try done.
    by apply andb_true_iff in Hact as [? _].
  - unfold Company.get_employees. rewrite list_elem_of_fmap. split.
    + intros (m & -> & Hm).
      apply list_elem_of_In, filter_In in Hm as [Hm%list_elem_of_In Hact].
      eauto.
    + intros (m & Hm & <- & Hact). exists m. split; [done|].
      apply list_elem_of_In, filter_In. split; [by apply list_elem_of_In|done].
Qed.

(** ** The permission gate *)

Ltac run_M :=
  unfold ContextOps.user_logged_in, ContextOps.reset_session,
    ContextOps.current_company, ContextOps.current_user,
    SessionOps.current_user, get_session, put_session, get_context,
    put_context, now, secho, raise, mbind, M_bind, mret, M_ret; simpl.

Lemma same_login_refl w : same_login w w.
Proof. by repeat split. Qed.

Lemma check_company_permissions_spec permissions :
  ∀ w c u,
    Session.company (Context._session (context w)) = Some c →
    Session._current_user (Context._session (context w)) = Some u →
    ∃ w1, same_login w w1 ∧
      check_company_permissions permissions w
      = if forallb (Company.has_permission c u) permissions
        then (Ok true, w1)
        else (Ok false, said not_authorized w1).
Proof.
  induction permissions as [|permission rest IH]; intros w c u Hc Hu.
  - exists w. split; [apply same_login_refl|done].
  - simpl. run_M. rewrite Hc, Hu. simpl.
    destruct (Company.has_permission c u permission) eqn:Hperm; simpl.
    + match goal with
      | |- context [check_company_permissions rest ?w'] =>
          destruct (IH w' c u eq_refl eq_refl) as (w1 & Hsame & ->)
      end.
      exists w1. split; [|done].
      destruct Hsame as (?&?&?&?&?&?&?). simpl in *.
      repeat split; congruence.
    + match goal with
      | |- ∃ _, _ ∧ (_, mkWorld ?ctx ?k ?t ?cc _ ?f) = _ =>
          exists (mkWorld ctx k t cc (stdout w) f)
      end.
      split; [|reflexivity].
      repeat split; simpl; congruence.
Qed.

Lemma company_has_permission_no_membership
    (c : Company.t) (u : User.t) (code : string) :
  (∀ m, m ∈ Company.employees c → Membership.user m ≠ u) →
  Company.has_permission c u code = false.
Proof.
  intros Hno%find_membership_None.
  unfold Company.has_permission. by rewrite Hno.
Qed.

Lemma permissions_wrapper_company (A : Type) (func : M (option A))
    permissions w c u :
  Session.company (Context._session (context w)) = Some c →
  Session._current_user (Context._session (context w)) = Some u →
  ∃ w1, same_login w w1 ∧
    permissions_wrapper permissions func w
    = if forallb (Company.has_permission c u) permissions
      then func w1
      else (Ok None, said not_authorized w1).
Proof.
  intros Hc Hu.
  destruct (check_company_permissions_spec permissions w c u Hc Hu)
    as (w1 & Hsame & Hcheck).
  exists w1. split; [done|].
  unfold permissions_wrapper, ContextOps.current_company, get_session,
    get_context, mbind, M_bind, mret, M_ret.
  simpl. rewrite Hc, Hcheck.
  by destruct (forallb _ _).
Qed.

Lemma require_permissions_company (A : Type) (func : M (option A))
    permissions w c u :
  Session.company (Context._session (context w)) = Some c →
  Session._current_user (Context._session (context w)) = Some u →
  ¬ stale w →
  ∃ w1, same_login w w1 ∧
    require_permissions permissions func w
    = if forallb (Company.has_permission c u) permissions
      then with_app_context func w1
      else with_app_context (secho not_authorized;; mret None) w1.
Proof.
  intros Hc Hu Hfresh.
  unfold require_permissions, require_login, with_app_context at 1.
  unfold stale in Hfresh. run_M.
  rewrite bool_decide_eq_false_2 by done. simpl. rewrite Hu. simpl.
  match goal with
  | |- context [permissions_wrapper permissions func ?w'] =>
      destruct (permissions_wrapper_company A func permissions w' c u
                  Hc eq_refl) as (w1 & Hsame & ->)
  end.
  exists w1. split.
  - destruct Hsame as (?&?&?&?&?&?&?). simpl in *.
    repeat split; congruence.
  - destruct (forallb _ _); reflexivity.
Qed.

(** C1. Without a membership of the user, [Company.has_permission] is
    false for every code, whatever the roles of the user grant. With a
    company in the session, the wrapper of [require_permissions] runs
    the command exactly when [Company.has_permission] holds for every
    required code, and prints the refusal otherwise; so does the whole
    decorator on a session that is not stale; and a user without a
    membership in that company is refused every non-empty list of
    codes. [User.has_permission] takes no part in any of this. *)
Theorem company_gate_ignores_global_roles :
  (∀ (c : Company.t) (u : User.t) (code : string),
     (∀ m, m ∈ Company.employees c → Membership.user m ≠ u) →
     Company.has_permission c u code = false)
  ∧
  (∀ (A : Type) (func : M (option A)) permissions w c u,
     Session.company (Context._session (context w)) = Some c →
     Session._current_user (Context._session (context w)) = Some u →
     ∃ w1, same_login w w1 ∧
       permissions_wrapper permissions func w
       = if forallb (Company.has_permission c u) permissions
         then func w1
         else (Ok None, said not_authorized w1))
  ∧
  (∀ (A : Type) (func : M (option A)) permissions w c u,
     Session.company (Context._session (context w)) = Some c →
     Session._current_user (Context._session (context w)) = Some u →
     ¬ stale w →
     ∃ w1, same_login w w1 ∧
       require_permissions permissions func w
       = if forallb (Company.has_permission c u) permissions
         then with_app_context func w1
         else with_app_context (secho not_authorized;; mret None) w1)
  ∧
  (∀ (A : Type) (func : M (option A)) permissions w c u,
     Session.company (Context._session (context w)) = Some c →
     Session._current_user (Context._session (context w)) = Some u →
     (∀ m, m ∈ Company.employees c → Membership.user m ≠ u) →
     permissions ≠ [] →
     ∃ w1, same_login w w1 ∧
       permissions_wrapper permissions func w
       = (Ok None, said not_authorized w1)).
Proof.
  split_and!.
  - apply company_has_permission_no_membership.
  - apply permissions_wrapper_company.
  - apply require_permissions_company.
  - intros A func [|permission rest] w c u Hc Hu Hno Hne; [done|].
    destruct (permissions_wrapper_company A func (permission :: rest)
                w c u Hc Hu) as (w1 & Hsame & ->).
    exists w1. split; [done|]. simpl.
    by rewrite (company_has_permission_no_membership c u permission Hno).
Qed.

(** The superuser holds every code globally and has no membership in
    [Boat Store]: with that company in the session, a command that
    requires [view] is refused. *)
Lemma company_gate_ignores_global_roles_witness :
  User.has_permission Sample.superuser PermissionCode.VIEW = true ∧
  ∃ w1,
    same_login
      (Sample.world (Session.mk (Some Sample.superuser)
                                (Some Sample.company_1) Sample.t0)) w1 ∧
    permissions_wrapper [PermissionCode.VIEW] (mret (Some ()))
      (Sample.world (Session.mk (Some Sample.superuser)
                                (Some Sample.company_1) Sample.t0))
    = (Ok None, said not_authorized w1).
Proof.
  split; [reflexivity|].
  apply (proj2 (proj2 (proj2 company_gate_ignores_global_roles)) unit
           (mret (Some ())) [PermissionCode.VIEW]
           (Sample.world (Session.mk (Some Sample.superuser)
                                     (Some Sample.company_1) Sample.t0))
           Sample.company_1 Sample.superuser eq_refl eq_refl).
  - intros m Hm. simpl in Hm. apply list_elem_of_singleton in Hm as ->.
    discriminate.
  - discriminate.
Defined.

(** ** Session expiry *)

(** C5. When the last access lies more than ten minutes before the
    reading of the clock, [user_logged_in] replaces the session by
    [Session()] (no user, no company) and answers [False], whatever
    user the session held. The answer and the world it leaves are those
    obtained from the logged-out session, and [require_login] refuses
    the command with [Login required]. *)
Theorem stale_session_is_logged_out :
  ∀ w, stale w →
    (∃ w',
       ContextOps.user_logged_in w = (Ok false, w') ∧
       Context._session (context w') = Session.new (class_created w) ∧
       Session._current_user (Context._session (context w')) = None ∧
       Session.company (Context._session (context w')) = None ∧
       Context.data (context w') = Context.data (context w)) ∧
    ContextOps.user_logged_in w
    = ContextOps.user_logged_in
        (with_session w (Session.new (class_created w))) ∧
    (∀ (A : Type) (func : M (option A)),
       ∃ w'',
         require_login func w = (Ok None, w'') ∧
         stdout w'' = stdout w ++ ["Login required"] ∧
         Context._session (context w'') = Session.new (class_created w)).
Proof.
  intros w Hstale. unfold stale in Hstale. split_and!.
  - eexists. split.
    + run_M. rewrite bool_decide_eq_true_2 by done. reflexivity.
    + split_and!; reflexivity.
  - run_M. rewrite bool_decide_eq_true_2 by done. simpl.
    by destruct (bool_decide _).
  - intros A func. eexists. split.
    + unfold require_login, with_app_context, ContextOps.save. run_M.
      rewrite bool_decide_eq_true_2 by done. reflexivity.
    + split; reflexivity.
Qed.

(** Alice in [Boat Store], last seen eleven minutes before the clock is
    read. *)
Lemma stale_session_is_logged_out_witness :
  ∃ w',
    ContextOps.user_logged_in
      (Sample.world
         (Session.mk (Some Sample.alice) (Some Sample.company_1)
                     (Sample.t0 - timedelta_minutes 11)))
    = (Ok false, w') ∧
    Context._session (context w') = Session.new (Sample.t0 - 5000000) ∧
    Session._current_user (Context._session (context w')) = None ∧
    Session.company (Context._session (context w')) = None ∧
    Context.data (context w') = Sample.data.
Proof.
  apply (proj1 (stale_session_is_logged_out
           (Sample.world
              (Session.mk (Some Sample.alice) (Some Sample.company_1)
                          (Sample.t0 - timedelta_minutes 11)))
           ltac:(unfold stale; simpl; vm_compute; reflexivity))).
Defined.

(** ** Authentication *)

(** C9. [authenticate] answers [True] exactly for the stored credential.
    It is a function of the user and the candidate alone; inside
    [login], a wrong credential leaves the world as the reset of the
    session at the start of the command left it, with the message
    printed: no user and no company are set. *)
Theorem authenticate_compares_exactly :
  (∀ (u : User.t) (candidate : string),
     User.authenticate u candidate = true
     ↔ candidate = User.password_hash u)
  ∧
  (∀ (lower : string → string) w username candidate company_name u,
     next_or_none
       (λ x, bool_decide (lower (User.username x) = lower username))
       (AppData.users (Context.data (context w))) = Some u →
     candidate ≠ User.password_hash u →
     User.authenticate u candidate = false ∧
     login_body lower username candidate company_name w
     = (ContextOps.reset_session;; secho "Invalid credentials") w ∧
     Context._session (context (login_body lower username candidate
                                  company_name w).2)
     = Session.new (class_created w)).
Proof.
  assert (∀ (u : User.t) (candidate : string),
     User.authenticate u candidate = true
     ↔ candidate = User.password_hash u) as Hiff.
  { intros u candidate. unfold User.authenticate.
    rewrite bool_decide_eq_true. split; congruence. }
  split; [done|].
  intros lower w username candidate company_name u Hfind Hwrong.
  assert (User.authenticate u candidate = false) as Hauth.
  { apply not_true_is_false. by rewrite Hiff. }
  split; [done|].
  unfold login_body. run_M. rewrite Hfind, Hauth. done.
Qed.

Lemma authenticate_compares_exactly_witness :
  User.authenticate Sample.alice "Alice" = false ∧
  login_body Sample.ascii_lower "ALICE" "Alice" (Some "Boat Store")
    (Sample.world (Session.mk (Some Sample.bob) None Sample.t0))
  = (ContextOps.reset_session;; secho "Invalid credentials")
      (Sample.world (Session.mk (Some Sample.bob) None Sample.t0)) ∧
  Context._session
    (context
       (login_body Sample.ascii_lower "ALICE" "Alice" (Some "Boat Store")
          (Sample.world (Session.mk (Some Sample.bob) None Sample.t0))).2)
  = Session.new (Sample.t0 - 5000000).
Proof.
  apply (proj2 authenticate_compares_exactly Sample.ascii_lower
           (Sample.world (Session.mk (Some Sample.bob) None Sample.t0))
           "ALICE" "Alice" (Some "Boat Store") Sample.alice).
  - reflexivity.
  - discriminate.
Defined.

(** ** [Product.update] *)

Lemma setattr_unmanaged (self : PyObject.t) (k : string) (v : Value) :
  k ∉ PyObject.managed →
  PyObject.setattr self k v
  = Ok (PyObject.mk (PyObject.class_name self) (PyObject.class_namespace self)
                    (<[k := v]> (PyObject.instance_dict self))).
Proof.
  intros Hk. unfold PyObject.setattr, PyObject.managed in *.
  repeat (destruct (decide _) as [->|?]; [set_solver|]). done.
Qed.

Lemma hasattr_unmanaged (self : PyObject.t) (k : string) :
  k ∉ PyObject.managed →
  PyObject.hasattr self k = bool_decide (is_Some (PyObject.getattr self k)).
Proof.
  intros Hk. unfold PyObject.hasattr.
  by rewrite (bool_decide_eq_false_2 _ Hk).
Qed.

(** Overwriting an attribute that exists does not change which
    attributes exist. *)
Lemma hasattr_after_overwrite (self : PyObject.t) (k k' : string) (v : Value) :
  PyObject.hasattr self k = true →
  k ∉ PyObject.managed →
  PyObject.hasattr
    (PyObject.mk (PyObject.class_name self) (PyObject.class_namespace self)
                 (<[k := v]> (PyObject.instance_dict self))) k'
  = PyObject.hasattr self k'.
Proof.
  intros Hhas Hk. rewrite hasattr_unmanaged in Hhas by done.
  apply bool_decide_eq_true in Hhas.
  unfold PyObject.hasattr. f_equal.
  unfold PyObject.getattr in *. simpl.
  destruct (decide (k = k')) as [<-|Hne].
  - rewrite lookup_insert_eq.
    rewrite bool_decide_eq_true_2 by eauto.
    by rewrite bool_decide_eq_true_2.
  - by rewrite lookup_insert_ne.
Qed.

(** The loop, for keys that the interpreter does not manage: the class
    is untouched, and the instance dictionary takes the value of every
    key that named an attribute. *)
Lemma update_items_spec (kwargs : list (string * Value)) :
  ∀ self : PyObject.t,
    NoDup kwargs.*1 →
    Forall (λ k, k ∉ PyObject.managed) kwargs.*1 →
    ∃ self',
      Product.update_items self kwargs = Ok self' ∧
      PyObject.class_name self' = PyObject.class_name self ∧
      PyObject.class_namespace self' = PyObject.class_namespace self ∧
      ∀ k, PyObject.instance_dict self' !! k
           = match (list_to_map kwargs : gmap string Value) !! k with
             | Some v => if PyObject.hasattr self k then Some v
                         else PyObject.instance_dict self !! k
             | None => PyObject.instance_dict self !! k
             end.
Proof.
  induction kwargs as [|[k0 v0] rest IH]; intros self Hnd Hplain.
  - exists self. split_and!; try done.
  - rewrite fmap_cons in Hnd, Hplain. simpl in Hnd, Hplain.
    apply NoDup_cons in Hnd as [Hfresh Hnd].
    apply Forall_cons in Hplain as [Hk0 Hplain].
    assert ((list_to_map rest : gmap string Value) !! k0 = None) as Hrest
      by by apply not_elem_of_list_to_map.
    simpl. destruct (PyObject.hasattr self k0) eqn:Hhas.
    + rewrite setattr_unmanaged by done.
      destruct (IH (PyObject.mk (PyObject.class_name self)
                      (PyObject.class_namespace self)
                      (<[k0 := v0]> (PyObject.instance_dict self)))
                  Hnd Hplain) as (self' & -> & Hcn & Hns & Hdict).
      exists self'. split_and!; try done.
      intros k. rewrite Hdict, hasattr_after_overwrite by done. simpl.
      destruct (decide (k0 = k)) as [<-|Hne].
      * by rewrite Hrest, !lookup_insert_eq, Hhas.
      * by rewrite !lookup_insert_ne.
    + destruct (IH self Hnd Hplain) as (self' & -> & Hcn & Hns & Hdict).
      exists self'. split_and!; try done.
      intros k. rewrite Hdict.
      destruct (decide (k0 = k)) as [<-|Hne].
      * by rewrite Hrest, lookup_insert_eq, Hhas.
      * by rewrite lookup_insert_ne.
Qed.

(** C8, amended. For a mapping (distinct keys) that names neither the
    parameter [self] nor one of the attributes [__class__], [__dict__],
    [__weakref__] that the interpreter manages, [update] returns
    without raising. Every key that named an attribute of the product,
    of the instance or of its class, now holds the value given; a key
    that named none is dropped, and no attribute is created for it;
    every attribute that the mapping does not name reads as before, and
    the class is the same. *)
Theorem update_sets_existing_attributes :
  ∀ (self : PyObject.t) (kwargs : list (string * Value)),
    NoDup kwargs.*1 →
    Forall (λ k, k ∉ "self" :: PyObject.managed) kwargs.*1 →
    ∃ self',
      Product.update self kwargs = Ok self' ∧
      (∀ k v, (k, v) ∈ kwargs → PyObject.hasattr self k = true →
              PyObject.getattr self' k = Some v) ∧
      (∀ k, PyObject.hasattr self k = false →
            PyObject.hasattr self' k = false) ∧
      (∀ k, k ∉ kwargs.*1 →
            PyObject.getattr self' k = PyObject.getattr self k) ∧
      PyObject.class_name self' = PyObject.class_name self ∧
      PyObject.class_namespace self' = PyObject.class_namespace self.
Proof.
  intros self kwargs Hnd Hkeys.
  assert ("self" ∉ kwargs.*1) as Hself.
  { intros Hin. rewrite Forall_forall in Hkeys. apply (Hkeys _ Hin). left. }
  assert (Forall (λ k, k ∉ PyObject.managed) kwargs.*1) as Hplain.
  { eapply Forall_impl; [exact Hkeys|]. intros k Hk Hin. apply Hk. by right. }
  destruct (update_items_spec kwargs self Hnd Hplain)
    as (self' & Hrun & Hcn & Hns & Hdict).
  exists self'. unfold Product.update.
  rewrite (bool_decide_eq_false_2 _ Hself). split_and!; try done.
  - intros k v Hkv Hhas. unfold PyObject.getattr. rewrite Hdict.
    rewrite (elem_of_list_to_map_1 kwargs k v Hnd Hkv), Hhas. done.
  - intros k Hhas.
    assert ((k ∉ PyObject.managed) ∧ PyObject.getattr self k = None)
      as [Hm Hget].
    { unfold PyObject.hasattr in Hhas.
      apply orb_false_iff in Hhas as [Hm Hget].
      apply bool_decide_eq_false in Hm, Hget.
      split; [done|]. by apply eq_None_not_Some. }
    rewrite hasattr_unmanaged by done. apply bool_decide_eq_false.
    unfold PyObject.getattr in *. rewrite Hdict, Hns, Hhas.
    destruct (list_to_map kwargs !! k); rewrite Hget; by intros [? ?].
  - intros k Hk. unfold PyObject.getattr. rewrite Hdict, Hns.
    by rewrite (not_elem_of_list_to_map_1 _ _ Hk).
Qed.

(** C8, as stated, fails on the names that the interpreter manages.
    [__dict__] names an existing attribute, and assigning a dict to it
    replaces the whole instance dictionary: [name], which the mapping
    does not mention, is gone. [__class__] names an existing attribute,
    and assigning a string to it raises. [self] names no attribute, and
    the call raises before the body runs. *)
Lemma update_fails_on_managed_names :
  (∃ self',
     Product.update (Product.to_object Sample.yacht1_built)
       [("__dict__", VDict [])] = Ok self' ∧
     PyObject.getattr (Product.to_object Sample.yacht1_built) "name"
     = Some (VStr "Yacht X") ∧
     PyObject.getattr self' "name" = None ∧
     PyObject.hasattr self' "name" = false) ∧
  PyObject.hasattr (Product.to_object Sample.yacht1_built) "__class__"
  = true ∧
  Product.update (Product.to_object Sample.yacht1_built)
    [("__class__", VStr "Boat")]
  = Raise (TypeError "__class__ must be set to a class") ∧
  PyObject.hasattr (Product.to_object Sample.yacht1_built) "self" = false ∧
  Product.update (Product.to_object Sample.yacht1_built) [("self", VInt 1)]
  = Raise (TypeError "update() got multiple values for argument 'self'").
Proof.
  split_and!; [|reflexivity..].
  eexists. split; [reflexivity|]. split_and!; reflexivity.
Qed.

(** The payload of the update test, with a key that names nothing. *)
Lemma update_sets_existing_attributes_witness :
  ∃ self',
    Product.update (Product.to_object Sample.yacht1_built)
      [("name", VStr "Updated Test Boat"); ("price", VFloat (Float 12000 0));
       ("colour", VStr "red")] = Ok self' ∧
    PyObject.getattr self' "name" = Some (VStr "Updated Test Boat") ∧
    PyObject.hasattr self' "colour" = false ∧
    PyObject.getattr self' "uuid" = Some (VStr "SKU001").
Proof.
  destruct (update_sets_existing_attributes
              (Product.to_object Sample.yacht1_built)
              [("name", VStr "Updated Test Boat");
               ("price", VFloat (Float 12000 0)); ("colour", VStr "red")])
    as (self' & Hrun & Hset & Hskip & Hframe & _).
  - apply (bool_decide_unpack _). vm_compute. exact I.
  - apply (bool_decide_unpack _). vm_compute. exact I.
  - exists self'. split_and!.
    + exact Hrun.
    + apply Hset; [left|reflexivity].
    + apply Hskip. reflexivity.
    + rewrite Hframe; [reflexivity|].
      apply (bool_decide_unpack _). vm_compute. exact I.
Defined.

(** [_categories_ids] is an attribute like any other for [update]: a
    payload that names it replaces the cached closure. *)
Lemma update_can_replace_cached_closure :
  ∃ self',
    Product.update (Product.to_object Sample.yacht1_built)
      [("_categories_ids", VList [VInt 2])] = Ok self' ∧
    PyObject.getattr (Product.to_object Sample.yacht1_built) "_categories_ids"
    = Some (VSet {[1000; 100; 1]}) ∧
    PyObject.getattr self' "_categories_ids" = Some (VList [VInt 2]).
Proof. eexists. split_and!; reflexivity. Qed.

(** ** The cached closure over the life of a product *)

Lemma to_object_closure (p : Product.t) :
  PyObject.instance_dict (Product.to_object p) !! "_categories_ids"
  = Some (VSet (Product._categories_ids p)).
Proof. destruct p as [? ? ? ? ? ? ? [] ?]; reflexivity. Qed.

Lemma has_category_of_set {C : Type} `{HasCatId C}
    (self : PyObject.t) (s : gset Z) (c : C) :
  PyObject.instance_dict self !! "_categories_ids" = Some (VSet s) →
  Product.has_category_of self c = Ok (bool_decide (cat_id c ∈ s)).
Proof.
  intros Hs. unfold Product.has_category_of, PyObject.getattr.
  by rewrite Hs.
Qed.

(** An update that does not name an attribute leaves it as it is. *)
Lemma update_leaves_unnamed (self : PyObject.t)
    (kwargs : list (string * Value)) (k : string) :
  NoDup kwargs.*1 →
  Forall (λ k', k' ∉ "self" :: PyObject.managed) kwargs.*1 →
  k ∉ kwargs.*1 →
  ∃ self',
    Product.update self kwargs = Ok self' ∧
    PyObject.instance_dict self' !! k = PyObject.instance_dict self !! k.
Proof.
  intros Hnd Hkeys Hk.
  assert ("self" ∉ kwargs.*1) as Hself.
  { intros Hin. rewrite Forall_forall in Hkeys. apply (Hkeys _ Hin). left. }
  assert (Forall (λ k', k' ∉ PyObject.managed) kwargs.*1) as Hplain.
  { eapply Forall_impl; [exact Hkeys|]. intros k' Hk' Hin. apply Hk'.
    by right. }
  destruct (update_items_spec kwargs self Hnd Hplain)
    as (self' & Hrun & _ & _ & Hdict).
  exists self'. unfold Product.update.
  rewrite (bool_decide_eq_false_2 _ Hself). split; [done|].
  by rewrite Hdict, (not_elem_of_list_to_map_1 _ _ Hk).
Qed.

(** Events that leave the closure alone run to their end; the product
    still holds the set, and every category of the store is one of
    before with the id it had. *)
Lemma happen_all_keeps_closure (events : list event) :
  ∀ (h : Heap) (self : PyObject.t) (s : gset Z),
    PyObject.instance_dict self !! "_categories_ids" = Some (VSet s) →
    Forall leaves_closure events →
    ∃ h' self',
      happen_all events (h, self) = Ok (h', self') ∧
      PyObject.instance_dict self' !! "_categories_ids" = Some (VSet s) ∧
      ∀ l c', h' !! l = Some c' →
        ∃ c, h !! l = Some c ∧ Category.cat_id c = Category.cat_id c'.
Proof.
  induction events as [|ev rest IH]; intros h self s Hs Hall.
  - exists h, self. split_and!; [done..|]. eauto.
  - apply Forall_cons in Hall as [Hev Hall].
    destruct ev as [l parent|kwargs]; simpl.
    + destruct (IH (Store.set_parent h l parent) self s Hs Hall)
        as (h' & self' & -> & Hs' & Hids).
      exists h', self'. split_and!; [done..|].
      intros l0 c' (c1 & Hc1 & <-)%Hids.
      by apply set_parent_lookup in Hc1.
    + destruct Hev as [Hnd Hkeys].
      destruct (update_leaves_unnamed self kwargs "_categories_ids" Hnd)
        as (self1 & -> & Hs1).
      * eapply Forall_impl; [exact Hkeys|]. intros k Hk Hin. apply Hk.
        unfold PyObject.managed, closure_names in *. set_solver.
      * intros Hin. rewrite Forall_forall in Hkeys. apply (Hkeys _ Hin).
        unfold PyObject.managed, closure_names. set_solver.
      * rewrite Hs in Hs1.
        destruct (IH h self1 s Hs1 Hall) as (h' & self' & -> & Hs' & Hids).
        by exists h', self'.
Qed.

(** C7, as stated, fails: the closure is an attribute of the product
    like any other, and [update] overwrites it. After
    [update(_categories_ids=[2])] on [yacht1], built in [Yacht], the
    product is no longer in [Vehicle] and is in [Parts]. *)
Lemma closure_overwritten_by_update :
  Sample.yacht1 3 = Returns Sample.yacht1_built ∧
  ∃ self',
    Product.update (Product.to_object Sample.yacht1_built)
      [("_categories_ids", VList [VInt 2])] = Ok self' ∧
    Product.has_category_of (Product.to_object Sample.yacht1_built)
      Sample.vehicle = Ok true ∧
    Product.has_category_of self' Sample.vehicle = Ok false ∧
    Product.has_category_of (Product.to_object Sample.yacht1_built)
      Sample.parts = Ok false ∧
    Product.has_category_of self' Sample.parts = Ok true.
Proof.
  split; [reflexivity|]. eexists. split; [reflexivity|].
  split_and!; reflexivity.
Qed.

(** C7, amended. The closure is computed once, at construction, and a
    product loses it only through [update]: after any number of writes
    to parent links and of updates that name neither [_categories_ids]
    nor [has_category] (nor a name on which [update] fails), in any
    order, the product still holds the set that [__post_init__]
    computed in the store of the construction, and for every category
    object, read after these events, [has_category] answers what it
    answered for that object before them: whether its id is in that
    set. *)
Theorem closure_kept_by_parent_writes_and_other_updates :
  ∀ fuel h uuid name description price produced_date is_new category kind p
    events,
    Product.__init__ fuel h uuid name description price produced_date
      is_new category kind = Returns p →
    Forall leaves_closure events →
    ∃ s h' self',
      Product.__post_init__ fuel h category = Returns s ∧
      happen_all events (h, Product.to_object p) = Ok (h', self') ∧
      PyObject.getattr self' "_categories_ids" = Some (VSet s) ∧
      ∀ l c', h' !! l = Some c' →
        ∃ c, h !! l = Some c ∧
             Product.has_category_of self' c'
             = Ok (bool_decide (Category.cat_id c ∈ s)) ∧
             Product.has_category_of self' c'
             = Product.has_category_of (Product.to_object p) c.
Proof.
  intros fuel h uuid name description price produced_date is_new category
    kind p events Hinit Hall.
  assert (Product.__post_init__ fuel h category
          = Returns (Product._categories_ids p)) as Hpost.
  { unfold Product.__init__ in Hinit.
    destruct (Product.__post_init__ fuel h category); [|done..].
    by injection Hinit as <-. }
  destruct (happen_all_keeps_closure events h (Product.to_object p)
              (Product._categories_ids p) (to_object_closure p) Hall)
    as (h' & self' & Hrun & Hs' & Hids).
  exists (Product._categories_ids p), h', self'.
  split_and!; [done|done| |].
  - unfold PyObject.getattr. by rewrite Hs'.
  - intros l c' (c & Hc & Hid)%Hids. exists c. split; [done|].
    rewrite (has_category_of_set self' _ c' Hs').
    rewrite (has_category_of_set _ _ c (to_object_closure p)).
    unfold cat_id, Category.has_cat_id. by rewrite Hid.
Qed.

(** [yacht1] after [Water Vehicle] was detached from [Vehicle], the
    product renamed and moved out of its category, and [Yacht] hung
    under [Parts]. *)
Lemma closure_kept_by_parent_writes_and_other_updates_witness :
  ∃ s h' self',
    Product.__post_init__ 3 Sample.heap (Some Sample.yacht_ref) = Returns s ∧
    happen_all
      [ParentWrite Sample.water_vehicle_ref None;
       Updated [("name", VStr "Yacht Y"); ("category", VNone)];
       ParentWrite Sample.yacht_ref (Some Sample.parts_ref)]
      (Sample.heap, Product.to_object Sample.yacht1_built) = Ok (h', self') ∧
    PyObject.getattr self' "_categories_ids" = Some (VSet s) ∧
    ∀ l c', h' !! l = Some c' →
      ∃ c, Sample.heap !! l = Some c ∧
           Product.has_category_of self' c'
           = Ok (bool_decide (Category.cat_id c ∈ s)) ∧
           Product.has_category_of self' c'
           = Product.has_category_of (Product.to_object Sample.yacht1_built) c.
Proof.
  apply (closure_kept_by_parent_writes_and_other_updates 3 Sample.heap
           "SKU001" "Yacht X" "Luxury yacht" (Float 700000 0)
           1654041600000000 true (Some Sample.yacht_ref)
           (Product.Yacht (Float 29 (-1)) (Float 5404319552844595 (-50))
                          (Float 2 0) 8 "Diesel" 800)
           Sample.yacht1_built
           [ParentWrite Sample.water_vehicle_ref None;
            Updated [("name", VStr "Yacht Y"); ("category", VNone)];
            ParentWrite Sample.yacht_ref (Some Sample.parts_ref)]
           eq_refl).
  repeat constructor; apply (bool_decide_unpack _); vm_compute; exact I.
Defined.

(** * Further properties *)

(** ** The closure and the chain of parents *)

Lemma walk_keeps fuel (h : Heap) categories category s :
  Product.walk fuel h categories category = Returns s → categories ⊆ s.
Proof.
  intros (cs & stop & _ & _ & _ & -> & _)%walk_returns. set_solver.
Qed.

Lemma init_closure fuel h uuid name description price produced_date is_new
    category kind p :
  Product.__init__ fuel h uuid name description price produced_date is_new
    category kind = Returns p →
  Product.walk fuel h ∅ category = Returns (Product._categories_ids p).
Proof.
  unfold Product.__init__, Product.__post_init__.
  destruct (Product.walk fuel h ∅ category); [|done..].
  by intros [= <-].
Qed.

(** X1. A product built with a category has that category and the
    parent of that category, on every store: the guard against cycles
    can only cut the chain above them. So the product is listed when
    the inventory is searched by its own category. *)
Theorem own_category_and_parent_in_closure :
  ∀ fuel h uuid name description price produced_date is_new l kind p c,
    Product.__init__ fuel h uuid name description price produced_date
      is_new (Some l) kind = Returns p →
    h !! l = Some c →
    Product.has_category p c = true ∧
    (∀ l' c', Category.parent c = Some l' → h !! l' = Some c' →
              Product.has_category p c' = true) ∧
    (∀ inv, p ∈ Inventory.products inv →
            p ∈ Inventory.get_products_by_category inv c).
Proof.
  intros fuel h uuid name description price produced_date is_new l kind p c
    Hinit%init_closure Hc.
  destruct fuel as [|fuel]; [done|]. simpl in Hinit. rewrite Hc in Hinit.
  rewrite decide_False in Hinit by set_solver.
  pose proof (walk_keeps _ _ _ _ _ Hinit) as Hown.
  assert (Product.has_category p c = true) as Hhas.
  { unfold Product.has_category, cat_id, Category.has_cat_id.
    apply bool_decide_eq_true. set_solver. }
  split_and!; [done| |].
  - intros l' c' Hpar Hc'.
    unfold Product.has_category, cat_id, Category.has_cat_id.
    apply bool_decide_eq_true.
    rewrite Hpar in Hinit. destruct fuel as [|fuel]; [done|].
    simpl in Hinit. rewrite Hc' in Hinit.
    destruct (decide _) as [Hold|Hnew].
    + set_solver.
    + apply walk_keeps in Hinit. set_solver.
  - intros inv Hin.
    unfold Inventory.get_products_by_category, get_products,
      Category.protocol, Category.get_products.
    apply list_elem_of_In, filter_In. split; [by apply list_elem_of_In|].
    exact Hhas.
Qed.

Lemma own_category_and_parent_in_closure_witness :
  Product.has_category Sample.yacht1_built Sample.yacht_cat = true ∧
  (∀ l' c', Category.parent Sample.yacht_cat = Some l' →
            Sample.heap !! l' = Some c' →
            Product.has_category Sample.yacht1_built c' = true) ∧
  (∀ inv, Sample.yacht1_built ∈ Inventory.products inv →
          Sample.yacht1_built
          ∈ Inventory.get_products_by_category inv Sample.yacht_cat).
Proof.
  apply (own_category_and_parent_in_closure 3 Sample.heap
           "SKU001" "Yacht X" "Luxury yacht" (Float 700000 0)
           1654041600000000 true Sample.yacht_ref
           (Product.Yacht (Float 29 (-1)) (Float 5404319552844595 (-50))
                          (Float 2 0) 8 "Diesel" 800)
           Sample.yacht1_built Sample.yacht_cat eq_refl eq_refl).
Defined.

(** X2. The closure holds nothing but ids of objects met on the way up
    from the category of the product: whenever [has_category] answers
    [True] for a category, an object with that id lies on the chain of
    parents; and every id of the closure is an id of the store. *)
Theorem closure_holds_ids_of_ancestors_only :
  ∀ fuel h uuid name description price produced_date is_new category kind p,
    Product.__init__ fuel h uuid name description price produced_date
      is_new category kind = Returns p →
    Product._categories_ids p ⊆ Store.ids h ∧
    ∀ c : Category.t,
      Product.has_category p c = true →
      ∃ cs stop a,
        Store.chain h category cs stop ∧ a ∈ cs ∧
        Category.cat_id a = Category.cat_id c.
Proof.
  intros fuel h uuid name description price produced_date is_new category
    kind p Hinit%init_closure.
  apply walk_returns in Hinit
    as (cs & stop & Hchain & _ & _ & Hs & _).
  assert (∀ i, i ∈ Product._categories_ids p →
               ∃ a, a ∈ cs ∧ Category.cat_id a = i) as Hfrom.
  { intros i Hi. rewrite Hs in Hi.
    apply elem_of_union in Hi as [Hi|Hi]; [set_solver|].
    apply elem_of_list_to_set, list_elem_of_fmap in Hi as (a & -> & Ha).
    eauto. }
  split.
  - intros i (a & Ha & <-)%Hfrom.
    clear Hs Hfrom. revert category Hchain.
    induction cs as [|b cs IH]; intros category Hchain;
      [by apply elem_of_nil in Ha|].
    destruct Hchain as (l & -> & Hb & Hchain).
    apply elem_of_cons in Ha as [->|Ha]; [by eapply ids_elem|].
    by eapply IH.
  - intros c Hc. unfold Product.has_category in Hc.
    apply bool_decide_eq_true, Hfrom in Hc as (a & Ha & Hid).
    by exists cs, stop, a.
Qed.

Lemma closure_holds_ids_of_ancestors_only_witness :
  Product._categories_ids Sample.yacht1_built ⊆ Store.ids Sample.heap ∧
  ∀ c : Category.t,
    Product.has_category Sample.yacht1_built c = true →
    ∃ cs stop a,
      Store.chain Sample.heap (Some Sample.yacht_ref) cs stop ∧ a ∈ cs ∧
      Category.cat_id a = Category.cat_id c.
Proof.
  apply (closure_holds_ids_of_ancestors_only 3 Sample.heap
           "SKU001" "Yacht X" "Luxury yacht" (Float 700000 0)
           1654041600000000 true (Some Sample.yacht_ref)
           (Product.Yacht (Float 29 (-1)) (Float 5404319552844595 (-50))
                          (Float 2 0) 8 "Diesel" 800)
           Sample.yacht1_built eq_refl).
Defined.

(** ** Adding members *)

Lemma find_app_bool {A : Type} (f : A → bool) (l1 l2 : list A) :
  List.find f (l1 ++ l2)
  = match List.find f l1 with
    | Some x => Some x
    | None => List.find f l2
    end.
Proof.
  induction l1 as [|a l1 IH]; simpl; [done|]. by destruct (f a).
Qed.

(** X3. [add_member] appends: a membership that the user already has
    stays the one that is found, so adding a member again with another
    role changes neither the membership found nor the permissions; a
    user without a membership gets the new one, active, with the
    permissions of its role; other users are not affected. *)
Theorem add_member_keeps_first_membership :
  ∀ (c : Company.t) (u v : User.t) (r : Role.t) (d : Z),
    Company.find_membership (Company.add_member c u r d) v
    = match Company.find_membership c v with
      | Some m => Some m
      | None => if decide (u = v) then Some (Membership.mk u r d true)
                else None
      end ∧
    Company.is_member (Company.add_member c u r d) u = true ∧
    (∀ code,
       Company.has_permission (Company.add_member c u r d) u code
       = if Company.is_member c u
         then Company.has_permission c u code
         else existsb
                (λ perm, bool_decide (code = Permission.perm_code perm))
                (Role.permissions r)) ∧
    (u ≠ v → ∀ code,
       Company.has_permission (Company.add_member c u r d) v code
       = Company.has_permission c v code).
Proof.
  intros c u v r d.
  assert (∀ w, Company.find_membership (Company.add_member c u r d) w
    = match Company.find_membership c w with
      | Some m => Some m
      | None => if decide (u = w) then Some (Membership.mk u r d true)
                else None
      end) as Hfind.
  { intros w. unfold Company.find_membership, Company.add_member. simpl.
    rewrite find_app_bool. destruct (List.find _ _); [done|]. simpl.
    unfold Membership.new. by destruct (decide (u = w)); simplify_eq;
      [rewrite bool_decide_eq_true_2|rewrite bool_decide_eq_false_2]. }
  split_and!.
  - apply Hfind.
  - unfold Company.is_member. rewrite Hfind.
    destruct (Company.find_membership c u); [done|].
    by rewrite decide_True.
  - intros code. unfold Company.has_permission, Company.is_member.
    rewrite Hfind. destruct (Company.find_membership c u); [done|].
    by rewrite decide_True.
  - intros Hne code. unfold Company.has_permission. rewrite Hfind.
    destruct (Company.find_membership c v); [done|].
    by rewrite decide_False.
Qed.

Lemma filter_app_bool {A : Type} (f : A → bool) (l1 l2 : list A) :
  List.filter f (l1 ++ l2) = List.filter f l1 ++ List.filter f l2.
Proof.
  induction l1 as [|a l1 IH]; simpl; [done|].
  destruct (f a); simpl; by rewrite IH.
Qed.

(** X4. After [add_member] the new user is listed last among the
    employees, and under a filter of role names exactly when the name of
    the role is in the filter; name and inventory of the company are
    untouched. *)
Theorem add_member_lists_new_employee :
  ∀ (c : Company.t) (u : User.t) (r : Role.t) (d : Z),
    Company.get_employees (Company.add_member c u r d) None
    = Company.get_employees c None ++ [u] ∧
    (∀ names, names ≠ [] →
       Company.get_employees (Company.add_member c u r d) (Some names)
       = Company.get_employees c (Some names)
         ++ (if bool_decide (Role.name r ∈ names) then [u] else [])) ∧
    Company.name (Company.add_member c u r d) = Company.name c ∧
    Company.inventory (Company.add_member c u r d) = Company.inventory c.
Proof.
  intros c u r d. split_and!; [| |done|done].
  - unfold Company.get_employees, Company.add_member. simpl.
    by rewrite filter_app_bool, fmap_app.
  - intros [|n names] Hne; [done|].
    unfold Company.get_employees, Company.add_member. simpl.
    rewrite filter_app_bool, fmap_app. f_equal. simpl.
    by destruct (bool_decide _).
Qed.

Lemma filter_and_sublist {A : Type} (f g : A → bool) (l : list A) :
  sublist (List.filter (λ x, f x && g x) l) (List.filter f l).
Proof.
  induction l as [|x l IH]; simpl; [constructor|].
  destruct (f x); simpl; [|done].
  destruct (g x); by constructor.
Qed.

(** X5. [get_employees] with an empty list of role names filters
    nothing; with any list it returns a sublist of the unfiltered
    answer, namely the users of the active memberships whose role name
    is in the list. *)
Theorem get_employees_role_filter :
  ∀ (c : Company.t) (names : list string),
    Company.get_employees c (Some []) = Company.get_employees c None ∧
    sublist (Company.get_employees c (Some names))
            (Company.get_employees c None) ∧
    (names ≠ [] →
     ∀ u, u ∈ Company.get_employees c (Some names) ↔
          ∃ m, m ∈ Company.employees c ∧ Membership.user m = u ∧
               Membership.active m = true ∧
               Role.name (Membership.role m) ∈ names).
Proof.
  intros c names. split_and!; [done| |].
  - destruct names as [|n names]; [done|].
    unfold Company.get_employees. apply fmap_sublist, filter_and_sublist.
  - destruct names as [|n names]; [done|]. intros _ u.
    unfold Company.get_employees. rewrite list_elem_of_fmap. split.
    + intros (m & -> & Hm).
      apply list_elem_of_In, filter_In in Hm as [Hm%list_elem_of_In Hok].
      apply andb_true_iff in Hok as [Hact Hrole%bool_decide_eq_true].
      eauto 6.
    + intros (m & Hm & <- & Hact & Hrole). exists m. split; [done|].
      apply list_elem_of_In, filter_In. split; [by apply list_elem_of_In|].
      rewrite Hact. simpl. by apply bool_decide_eq_true.
Qed.

(** ** Lookups *)

(** X6. [get_product] returns the first product of the inventory whose
    SKU is the one asked for, and [None] exactly when no product has
    it. *)
Theorem get_product_first_match :
  ∀ (inv : Inventory.t) (sku : string),
    (∀ p, Inventory.get_product inv sku = Some p ↔
          ∃ before after,
            Inventory.products inv = before ++ p :: after ∧
            Product.uuid p = sku ∧
            ∀ q, q ∈ before → Product.uuid q ≠ sku) ∧
    (Inventory.get_product inv sku = None ↔
     ∀ p, p ∈ Inventory.products inv → Product.uuid p ≠ sku).
Proof.
  intros inv sku. unfold Inventory.get_product. split.
  - intros p. rewrite find_first.
    split; intros (before & after & Heq & Hp & Hbefore);
      exists before, after; split_and!; try done.
    + by apply bool_decide_eq_true in Hp.
    + intros q Hq%Hbefore. by apply bool_decide_eq_false in Hq.
    + by apply bool_decide_eq_true.
    + intros q Hq. apply bool_decide_eq_false. by apply Hbefore.
  - split.
    + intros Hnone p Hp%list_elem_of_In.
      pose proof (find_none _ _ Hnone p Hp) as Hf. simpl in Hf.
      by apply bool_decide_eq_false in Hf.
    + intros Hall. destruct (List.find _ _) as [p|] eqn:Hfind; [|done].
      apply find_some in Hfind as [Hp%list_elem_of_In Hf].
      apply bool_decide_eq_true in Hf. by apply Hall in Hp.
Qed.

(** X7. On a store that holds every category of the data store,
    [find_category] returns: the first category of the list that
    carries the id, and [None] exactly when no category of the list
    carries it. *)
Theorem find_category_first_match :
  ∀ (h : Heap) (data : AppData.t) (category_id : Z),
    (∀ l, l ∈ AppData.categories data → is_Some (h !! l)) →
    ∃ r,
      AppData.find_category h data category_id = Returns r ∧
      (∀ l, r = Some l ↔
            ∃ before after c,
              AppData.categories data = before ++ l :: after ∧
              h !! l = Some c ∧ Category.cat_id c = category_id ∧
              ∀ l' c', l' ∈ before → h !! l' = Some c' →
                       Category.cat_id c' ≠ category_id) ∧
      (r = None ↔
       ∀ l c, l ∈ AppData.categories data → h !! l = Some c →
              Category.cat_id c ≠ category_id).
Proof.
  intros h data category_id. unfold AppData.find_category.
  induction (AppData.categories data) as [|cat rest IH]; intros Hvalid; simpl.
  - exists None. split_and!; [done| |].
    + intros l. split; [done|]. intros (before & after & c & Heq & _).
      by destruct before.
    + split; [|done]. intros _ l c Hl. by apply elem_of_nil in Hl.
  - destruct (Hvalid cat) as [c Hc]; [left|]. rewrite Hc.
    destruct (decide _) as [Hid|Hid].
    + exists (Some cat). split_and!; [done| |].
      * intros l. split.
        -- intros [= <-]. exists [], rest, c. split_and!; try done.
           intros l' c' Hl'. by apply elem_of_nil in Hl'.
        -- intros ([|b before] & after & c0 & Heq & Hc0 & Hid0 & Hbefore).
           ++ by injection Heq as ->.
           ++ injection Heq as -> ->.
              by destruct (Hbefore b c (ltac:(left)) Hc).
      * split; [done|]. intros Hall.
        by destruct (Hall cat c (ltac:(left)) Hc).
    + destruct IH as (r & -> & Hsome & Hnone).
      { intros l Hl. apply Hvalid. by right. }
      exists r. split_and!; [done| |].
      * intros l. rewrite Hsome. split.
        -- intros (before & after & c0 & -> & Hc0 & Hid0 & Hbefore).
           exists (cat :: before), after, c0. split_and!; try done.
           intros l' c' [->|Hl']%elem_of_cons Hc'.
           ++ congruence.
           ++ by eapply Hbefore.
        -- intros ([|b before] & after & c0 & Heq & Hc0 & Hid0 & Hbefore).
           ++ injection Heq as -> ->. congruence.
           ++ injection Heq as -> ->. exists before, after, c0.
              split_and!; try done. intros l' c' Hl'.
              apply Hbefore. by right.
      * rewrite Hnone. split.
        -- intros Hall l c0 [->|Hl]%elem_of_cons Hc0; [congruence|].
           by eapply Hall.
        -- intros Hall l c0 Hl. apply Hall. by right.
Qed.

(** X8. [find_company] compares lower-cased names: two spellings with
    the same lower case find the same company; a company found is one
    of the data store with that lower-cased name; [None] exactly when
    there is none. *)
Theorem find_company_ignores_case :
  ∀ (lower : string → string) (data : AppData.t) (n n' : string),
    (lower n = lower n' →
     AppData.find_company lower data n = AppData.find_company lower data n') ∧
    (∀ c, AppData.find_company lower data n = Some c →
          c ∈ AppData.companies data ∧ lower (Company.name c) = lower n) ∧
    (AppData.find_company lower data n = None ↔
     ∀ c, c ∈ AppData.companies data → lower (Company.name c) ≠ lower n).
Proof.
  intros lower data n n'. unfold AppData.find_company. split_and!.
  - by intros ->.
  - intros c [Hc%list_elem_of_In Hf%bool_decide_eq_true]%find_some. done.
  - split.
    + intros Hnone c Hc%list_elem_of_In.
      pose proof (find_none _ _ Hnone c Hc) as Hf. simpl in Hf.
      by apply bool_decide_eq_false in Hf.
    + intros Hall. destruct (List.find _ _) as [c|] eqn:Hfind; [|done].
      apply find_some in Hfind as [Hc%list_elem_of_In Hf].
      apply bool_decide_eq_true in Hf. by apply Hall in Hc.
Qed.

Lemma find_category_first_match_witness :
  ∃ r,
    AppData.find_category Sample.heap Sample.data 100 = Returns r ∧
    (∀ l, r = Some l ↔
          ∃ before after c,
            AppData.categories Sample.data = before ++ l :: after ∧
            Sample.heap !! l = Some c ∧ Category.cat_id c = 100 ∧
            ∀ l' c', l' ∈ before → Sample.heap !! l' = Some c' →
                     Category.cat_id c' ≠ 100) ∧
    (r = None ↔
     ∀ l c, l ∈ AppData.categories Sample.data → Sample.heap !! l = Some c →
            Category.cat_id c ≠ 100).
Proof.
  apply (find_category_first_match Sample.heap Sample.data 100).
  intros l Hl. simpl in Hl. unfold Sample.categories in Hl.
  repeat (apply elem_of_cons in Hl as [->|Hl]; [by eexists|]).
  by apply elem_of_nil in Hl.
Defined.

(** ** The login check *)

(** X9. [user_logged_in] answers [True] exactly when a user is set and
    the last access is at most ten minutes before the reading of the
    clock (ten minutes sharp still counts). It then moves the last
    access to the next reading and keeps user and company; without a
    user a fresh session is left as it is; the data are never
    touched. *)
Theorem user_logged_in_within_ten_minutes :
  ∀ w,
    (ContextOps.user_logged_in w).1
    = Ok (bool_decide
            (Session._current_user (Context._session (context w)) ≠ None ∧
             clock w (ticks w) - timedelta_minutes 10
             ≤ Session.last_visited_date (Context._session (context w)))) ∧
    (∀ u,
       Session._current_user (Context._session (context w)) = Some u →
       clock w (ticks w) - timedelta_minutes 10
       ≤ Session.last_visited_date (Context._session (context w)) →
       Context._session (context (ContextOps.user_logged_in w).2)
       = Session.mk (Some u)
           (Session.company (Context._session (context w)))
           (clock w (S (ticks w)))) ∧
    (Session._current_user (Context._session (context w)) = None →
     clock w (ticks w) - timedelta_minutes 10
     ≤ Session.last_visited_date (Context._session (context w)) →
     context (ContextOps.user_logged_in w).2 = context w) ∧
    Context.data (context (ContextOps.user_logged_in w).2)
    = Context.data (context w).
Proof.
  intros w. run_M.
  destruct (decide (Session.last_visited_date (Context._session (context w))
                    < clock w (ticks w) - timedelta_minutes 10))
    as [Hstale|Hfresh].
  - rewrite (bool_decide_eq_true_2 _ Hstale). simpl.
    split_and!; try (intros; lia); try done.
    f_equal. symmetry. apply bool_decide_eq_false. lia.
  - rewrite (bool_decide_eq_false_2 _ Hfresh). simpl.
    destruct (Session._current_user (Context._session (context w)))
      as [u|] eqn:Hu; simpl.
    + split_and!; [|by intros ? [= <-]|done|done].
      f_equal. symmetry. apply bool_decide_eq_true. split; [done|lia].
    + split_and!; [|done| |done].
      * done.
      * intros _ _. by destruct w as [[? ?] ? ? ? ? ?].
Qed.

(** X10. Without a user in the session, [require_login] does not run
    the command: it prints [Login required], returns [None] and saves
    the context, still without a user, whether the session is stale or
    not. *)
Theorem require_login_without_user :
  ∀ (A : Type) (func : M (option A)) w,
    Session._current_user (Context._session (context w)) = None →
    ∃ w',
      require_login func w = (Ok None, w') ∧
      stdout w' = stdout w ++ ["Login required"] ∧
      files w' = Some (context w') ∧
      Session._current_user (Context._session (context w')) = None ∧
      Context.data (context w') = Context.data (context w).
Proof.
  intros A func w Hu. unfold require_login, with_app_context, ContextOps.save.
  run_M. destruct (bool_decide _); simpl; [|rewrite Hu; simpl];
    eexists; split; try reflexivity; done.
Qed.

Lemma require_login_without_user_witness :
  ∃ w',
    require_login (mret (Some ()))
      (Sample.world (Session.mk None (Some Sample.company_1) Sample.t0))
    = (Ok None, w') ∧
    stdout w' = [] ++ ["Login required"] ∧
    files w' = Some (context w') ∧
    Session._current_user (Context._session (context w')) = None ∧
    Context.data (context w') = Sample.data.
Proof.
  apply (require_login_without_user unit (mret (Some ()))
           (Sample.world (Session.mk None (Some Sample.company_1) Sample.t0))
           eq_refl).
Defined.

(** ** The gate without a company *)

Lemma user_has_permission_iff (u : User.t) (code : string) :
  User.has_permission u code = true ↔
  ∃ role perm, role ∈ User.roles u ∧ perm ∈ Role.permissions role ∧
               Permission.perm_code perm = code.
Proof.
  unfold User.has_permission. rewrite existsb_exists. split.
  - intros (perm & Hperm%list_elem_of_In & Hcode%bool_decide_eq_true).
    apply list_elem_of_bind in Hperm as (role & Hperm & Hrole).
    by exists role, perm.
  - intros (role & perm & Hrole & Hperm & Hcode). exists perm. split.
    + apply list_elem_of_In, list_elem_of_bind. by exists role.
    + by apply bool_decide_eq_true.
Qed.

Lemma check_user_permissions_spec permissions :
  ∀ w u,
    Session._current_user (Context._session (context w)) = Some u →
    ∃ w1, same_login w w1 ∧
      check_user_permissions permissions w
      = if forallb (User.has_permission u) permissions
        then (Ok true, w1)
        else (Ok false, said not_authorized w1).
Proof.
  induction permissions as [|permission rest IH]; intros w u Hu.
  - exists w. split; [apply same_login_refl|done].
  - simpl. run_M. rewrite Hu. simpl.
    destruct (User.has_permission u permission) eqn:Hperm; simpl.
    + match goal with
      | |- context [check_user_permissions rest ?w'] =>
          destruct (IH w' u eq_refl) as (w1 & Hsame & ->)
      end.
      exists w1. split; [|done].
      destruct Hsame as (?&?&?&?&?&?&?). simpl in *.
      repeat split; congruence.
    + match goal with
      | |- ∃ _, _ ∧ (_, mkWorld ?ctx ?k ?t ?cc _ ?f) = _ =>
          exists (mkWorld ctx k t cc (stdout w) f)
      end.
      split; [|reflexivity].
      repeat split; simpl; congruence.
Qed.

(** X11. Without a company in the session, a logged-in user passes
    [require_permissions] exactly when [User.has_permission] holds for
    every required code, that is, when for every code some role of the
    user holds a permission with that code; otherwise the refusal is
    printed and the command does not run. Either way the context is
    saved. *)
Theorem global_gate_checks_user_roles :
  ∀ (A : Type) (func : M (option A)) permissions w u,
    Session.company (Context._session (context w)) = None →
    Session._current_user (Context._session (context w)) = Some u →
    ¬ stale w →
    (∃ w1, same_login w w1 ∧
       require_permissions permissions func w
       = if forallb (User.has_permission u) permissions
         then with_app_context func w1
         else with_app_context (secho not_authorized;; mret None) w1) ∧
    (forallb (User.has_permission u) permissions = true ↔
     ∀ code, code ∈ permissions →
       ∃ role perm, role ∈ User.roles u ∧ perm ∈ Role.permissions role ∧
                    Permission.perm_code perm = code).
Proof.
  intros A func permissions w u Hc Hu Hfresh. split.
  - unfold require_permissions, require_login, with_app_context at 1.
    unfold stale in Hfresh. run_M.
    rewrite bool_decide_eq_false_2 by done. simpl. rewrite Hu. simpl.
    unfold permissions_wrapper, ContextOps.current_company, get_session,
      get_context, mbind, M_bind, mret, M_ret. simpl. rewrite Hc.
    match goal with
    | |- context [check_user_permissions permissions ?w'] =>
        destruct (check_user_permissions_spec permissions w' u eq_refl)
          as (w1 & Hsame & ->)
    end.
    exists w1. split.
    + destruct Hsame as (?&?&?&?&?&?&?). simpl in *.
      repeat split; congruence.
    + destruct (forallb _ _); reflexivity.
  - rewrite forallb_forall. split.
    + intros Hall code Hcode%list_elem_of_In.
      by apply user_has_permission_iff, Hall.
    + intros Hall code Hcode%list_elem_of_In.
      by apply user_has_permission_iff, Hall.
Qed.

Lemma global_gate_checks_user_roles_witness :
  ∃ w1,
    same_login (Sample.world (Session.mk (Some Sample.alice) None Sample.t0))
               w1 ∧
    require_permissions [PermissionCode.COMPANY_EDIT] (mret (Some ()))
      (Sample.world (Session.mk (Some Sample.alice) None Sample.t0))
    = with_app_context (secho not_authorized;; mret None) w1.
Proof.
  apply (proj1 (global_gate_checks_user_roles unit (mret (Some ()))
           [PermissionCode.COMPANY_EDIT]
           (Sample.world (Session.mk (Some Sample.alice) None Sample.t0))
           Sample.alice eq_refl eq_refl
           ltac:(unfold stale; vm_compute; discriminate))).
Defined.

(** ** Logging in and out *)

(** X12. [login] never raises and never changes the data. Whatever the
    session held before, the user it leaves in the session, if any, is
    the first user whose lower-cased name matches, and the password
    given is the stored credential of that user; the company it leaves,
    if any, is a company of the data store with exactly the name asked
    for, of which that user is a member. *)
Theorem login_sets_only_what_was_checked :
  ∀ (lower : string → string) w username password company_name,
    ∃ w',
      login_body lower username password company_name w = (Ok (), w') ∧
      Context.data (context w') = Context.data (context w) ∧
      (∀ u,
         Session._current_user (Context._session (context w')) = Some u →
         next_or_none
           (λ x, bool_decide (lower (User.username x) = lower username))
           (AppData.users (Context.data (context w))) = Some u ∧
         User.password_hash u = password) ∧
      (∀ c,
         Session.company (Context._session (context w')) = Some c →
         company_name = Some (Company.name c) ∧
         c ∈ AppData.companies (Context.data (context w)) ∧
         ∃ u, Session._current_user (Context._session (context w'))
              = Some u ∧
              Company.is_member c u = true).
Proof.
  intros lower w username password company_name.
  unfold login_body, next_or_none. run_M.
  destruct (List.find _ (AppData.users _)) as [u|] eqn:Hfind;
    [|eexists; split_and!; [reflexivity|done..]].
  unfold User.authenticate.
  destruct (bool_decide (User.password_hash u = password)) eqn:Hpw;
    [|eexists; split_and!; [reflexivity|done..]].
  apply bool_decide_eq_true in Hpw.
  unfold ContextOps.set_user, SessionOps.set_current_user,
    ContextOps.set_company. run_M.
  destruct company_name as [[|a cname]|];
    [eexists; split_and!; [reflexivity|done|by intros ? [= <-]|done]| |
     eexists; split_and!; [reflexivity|done|by intros ? [= <-]|done]].
  destruct (List.find _ (AppData.companies _)) as [c|] eqn:Hc;
    [|eexists; split_and!; [reflexivity|done|by intros ? [= <-]|done]].
  apply find_some in Hc as [Hin%list_elem_of_In Hname%bool_decide_eq_true].
  destruct (Company.is_member c u) eqn:Hmember; simpl;
    eexists; (split_and!; [reflexivity|done|by intros ? [= <-]|]); [|done].
  simpl. intros ? [= <-]. split_and!; [by rewrite Hname|done|eauto].
Qed.

(** X13. A login with the credential of the user, without a company:
    the session holds the user and no company, its last access is the
    reading of the clock, the greeting is printed and the context
    saved. A command under [require_login] issued while the clock is
    within ten minutes of that reading is run. *)
Theorem login_then_gate :
  ∀ (lower : string → string) w username password u,
    next_or_none
      (λ x, bool_decide (lower (User.username x) = lower username))
      (AppData.users (Context.data (context w))) = Some u →
    User.password_hash u = password →
    ∃ w',
      login lower username password None w = (Ok (), w') ∧
      Context._session (context w')
      = Session.mk (Some u) None (clock w (ticks w)) ∧
      stdout w' = stdout w ++ ["Logged in as " +:+ username] ∧
      files w' = Some (context w') ∧
      (clock w' (ticks w') - timedelta_minutes 10 ≤ clock w (ticks w) →
       ∀ (A : Type) (func : M (option A)),
         ∃ w1, same_login w' w1 ∧
               require_login func w' = with_app_context func w1).
Proof.
  intros lower w username password u Hfind Hpw.
  unfold login, with_app_context, login_body, ContextOps.save.
  unfold ContextOps.set_user, SessionOps.set_current_user. run_M.
  rewrite Hfind. unfold User.authenticate.
  rewrite bool_decide_eq_true_2 by done. simpl.
  eexists. split; [reflexivity|]. simpl. split_and!; try done.
  intros Hfresh A func.
  unfold require_login, with_app_context at 1. run_M.
  rewrite bool_decide_eq_false_2 by lia. simpl.
  eexists. split; [|reflexivity].
  repeat split.
Qed.

Lemma login_then_gate_witness :
  ∃ w',
    login Sample.ascii_lower "ALICE" "alice" None
      (Sample.world (Session.mk (Some Sample.bob) (Some Sample.company_1) 0))
    = (Ok (), w') ∧
    Context._session (context w')
    = Session.mk (Some Sample.alice) None Sample.t0 ∧
    stdout w' = [] ++ ["Logged in as " +:+ "ALICE"] ∧
    files w' = Some (context w') ∧
    (clock w' (ticks w') - timedelta_minutes 10 ≤ Sample.t0 →
     ∀ (A : Type) (func : M (option A)),
       ∃ w1, same_login w' w1 ∧
             require_login func w' = with_app_context func w1).
Proof.
  apply (login_then_gate Sample.ascii_lower
           (Sample.world
              (Session.mk (Some Sample.bob) (Some Sample.company_1) 0))
           "ALICE" "alice" Sample.alice eq_refl eq_refl).
Defined.

(** X14. [logout] leaves the session of [Session()], prints
    [Logged out] and saves the context; every command under
    [require_permissions] issued afterwards is refused with
    [Login required]. *)
Theorem logout_then_gate :
  ∀ w,
    ∃ w',
      logout w = (Ok (), w') ∧
      Context._session (context w') = Session.new (class_created w) ∧
      Context.data (context w') = Context.data (context w) ∧
      stdout w' = stdout w ++ ["Logged out"] ∧
      files w' = Some (context w') ∧
      ∀ (A : Type) (func : M (option A)) permissions,
        ∃ w'',
          require_permissions permissions func w' = (Ok None, w'') ∧
          stdout w'' = stdout w' ++ ["Login required"].
Proof.
  intros w. unfold logout, logout_body, with_app_context, ContextOps.save.
  run_M. eexists. split; [reflexivity|]. simpl. split_and!; try done.
  intros A func permissions.
  unfold require_permissions, require_login, with_app_context,
    ContextOps.save. run_M.
  destruct (bool_decide _); simpl; eexists; split; reflexivity.
Qed.

(** ** The [employees] command *)

Lemma secho_employees_prints employees w :
  secho_employees employees w
  = (Ok (), printed ((λ u, "- " +:+ User.username u) <$> employees) w).
Proof.
  revert w. induction employees as [|u rest IH]; intros w.
  - unfold printed. simpl. rewrite app_nil_r. by destruct w.
  - simpl. run_M. rewrite IH. unfold printed. simpl.
    by rewrite <- app_assoc.
Qed.

(** The lines that [employees] prints for a list of companies. *)
Lemma secho_companies_prints companies w :
  secho_companies companies w
  = (Ok (),
     printed
       (company ← companies;
        ("Company " +:+ Company.name company +:+ ":")
        :: ((λ u, "- " +:+ User.username u)
              <$> Company.get_employees company None))
       w).
Proof.
  revert w. induction companies as [|c rest IH]; intros w.
  - unfold printed. simpl. rewrite app_nil_r. by destruct w.
  - simpl. run_M. rewrite secho_employees_prints.
    unfold printed at 1. simpl. rewrite IH. unfold printed. simpl.
    by rewrite <- !app_assoc.
Qed.

(** X15. With a company in a session that is not stale, [employees]
    prints the name of that company and one line per active membership,
    in order, when the user has [company_view] in the company, and the
    refusal alone otherwise; it lists no other company, changes no data
    and saves the context. *)
Theorem employees_lists_active_members_of_company :
  ∀ w c u,
    Session.company (Context._session (context w)) = Some c →
    Session._current_user (Context._session (context w)) = Some u →
    ¬ stale w →
    ∃ w',
      employees w = (Ok None, w') ∧
      Context.data (context w') = Context.data (context w) ∧
      files w' = Some (context w') ∧
      stdout w'
      = stdout w ++
        if Company.has_permission c u PermissionCode.COMPANY_VIEW
        then ("Company " +:+ Company.name c +:+ ":")
             :: ((λ m, "- " +:+ User.username (Membership.user m))
                   <$> List.filter Membership.active (Company.employees c))
        else [not_authorized].
Proof.
  intros w c u Hc Hu Hfresh. unfold employees.
  destruct (require_permissions_company unit employees_body
              [PermissionCode.COMPANY_VIEW] w c u Hc Hu Hfresh)
    as (w1 & (Hdata & _ & Hc1 & _ & _ & Hout & _) & ->).
  simpl. rewrite andb_true_r.
  destruct (Company.has_permission c u PermissionCode.COMPANY_VIEW).
  - unfold with_app_context, employees_body, ContextOps.save,
      ContextOps.current_company, get_session, get_context, mbind, M_bind,
      mret, M_ret. cbn -[secho_companies]. rewrite Hc1, Hc.
    cbn -[secho_companies]. rewrite secho_companies_prints. simpl.
    eexists. split; [reflexivity|]. simpl. split_and!; [done|done|].
    rewrite Hout, app_nil_r. f_equal. f_equal.
    unfold Company.get_employees. by rewrite <- list_fmap_compose.
  - unfold with_app_context, ContextOps.save. run_M.
    eexists. split; [reflexivity|]. simpl. split_and!; [done|done|].
    by rewrite Hout.
Qed.

Lemma employees_lists_active_members_of_company_witness :
  ∃ w',
    employees
      (Sample.world (Session.mk (Some Sample.alice)
                                (Some Sample.company_1_with_bob) Sample.t0))
    = (Ok None, w') ∧
    Context.data (context w') = Sample.data ∧
    files w' = Some (context w') ∧
    stdout w'
    = [] ++
      if Company.has_permission Sample.company_1_with_bob Sample.alice
           PermissionCode.COMPANY_VIEW
      then ("Company " +:+ Company.name Sample.company_1_with_bob +:+ ":")
           :: ((λ m, "- " +:+ User.username (Membership.user m))
                 <$> List.filter Membership.active
                       (Company.employees Sample.company_1_with_bob))
      else [not_authorized].
Proof.
  apply (employees_lists_active_members_of_company
           (Sample.world (Session.mk (Some Sample.alice)
                                     (Some Sample.company_1_with_bob)
                                     Sample.t0))
           Sample.company_1_with_bob Sample.alice eq_refl eq_refl
           ltac:(unfold stale; vm_compute; discriminate)).
Defined.

(** ** More on [Product.update] *)

Lemma pyobject_eq (a b : PyObject.t) :
  PyObject.class_name a = PyObject.class_name b →
  PyObject.class_namespace a = PyObject.class_namespace b →
  PyObject.instance_dict a = PyObject.instance_dict b →
  a = b.
Proof. destruct a, b. simpl. by intros -> -> ->. Qed.

(** X16. For a mapping that names neither [self] nor a managed
    attribute, [update] neither creates nor removes an attribute name,
    applying it a second time changes nothing, and the empty mapping
    changes nothing. *)
Theorem update_keeps_attribute_names :
  ∀ (self : PyObject.t) (kwargs : list (string * Value)),
    NoDup kwargs.*1 →
    Forall (λ k, k ∉ "self" :: PyObject.managed) kwargs.*1 →
    ∃ self',
      Product.update self kwargs = Ok self' ∧
      (∀ k, PyObject.hasattr self' k = PyObject.hasattr self k) ∧
      Product.update self' kwargs = Ok self' ∧
      (kwargs = [] → self' = self).
Proof.
  intros self kwargs Hnd Hkeys.
  assert ("self" ∉ kwargs.*1) as Hself.
  { intros Hin. rewrite Forall_forall in Hkeys. apply (Hkeys _ Hin). left. }
  assert (Forall (λ k, k ∉ PyObject.managed) kwargs.*1) as Hplain.
  { eapply Forall_impl; [exact Hkeys|]. intros k Hk Hin. apply Hk. by right. }
  destruct (update_items_spec kwargs self Hnd Hplain)
    as (self' & Hrun & Hcn & Hns & Hdict).
  assert (∀ k, PyObject.hasattr self' k = PyObject.hasattr self k) as Hhas.
  { intros k. unfold PyObject.hasattr at 1 2. f_equal.
    unfold PyObject.getattr. rewrite Hdict, Hns.
    destruct (list_to_map kwargs !! k) as [v|] eqn:Hk; [|done].
    destruct (PyObject.hasattr self k) eqn:Hsk; [|done].
    assert (k ∉ PyObject.managed) as Hm.
    { rewrite Forall_forall in Hplain. apply Hplain.
      apply elem_of_list_to_map_2 in Hk.
      apply list_elem_of_fmap. by exists (k, v). }
    rewrite hasattr_unmanaged in Hsk by done.
    unfold PyObject.getattr in Hsk.
    rewrite Hsk. by rewrite bool_decide_eq_true_2 by eauto. }
  exists self'. unfold Product.update.
  rewrite (bool_decide_eq_false_2 _ Hself). split_and!; [done|done| |].
  - destruct (update_items_spec kwargs self' Hnd Hplain)
      as (self'' & Hrun' & Hcn' & Hns' & Hdict').
    rewrite Hrun'. f_equal. apply pyobject_eq; [done|done|].
    apply map_eq. intros k. rewrite Hdict', Hhas, Hdict.
    destruct (list_to_map kwargs !! k); [|done].
    by destruct (PyObject.hasattr self k).
  - intros ->. simpl in Hrun. by injection Hrun as <-.
Qed.

Lemma update_keeps_attribute_names_witness :
  ∃ self',
    Product.update (Product.to_object Sample.yacht1_built)
      [("price", VInt 650000); ("sold", VBool true)] = Ok self' ∧
    (∀ k, PyObject.hasattr self' k
          = PyObject.hasattr (Product.to_object Sample.yacht1_built) k) ∧
    Product.update self' [("price", VInt 650000); ("sold", VBool true)]
    = Ok self' ∧
    ([("price", VInt 650000); ("sold", VBool true)] = [] →
     self' = Product.to_object Sample.yacht1_built).
Proof.
  apply (update_keeps_attribute_names
           (Product.to_object Sample.yacht1_built)
           [("price", VInt 650000); ("sold", VBool true)]).
  - apply (bool_decide_unpack _). vm_compute. exact I.
  - apply (bool_decide_unpack _). vm_compute. exact I.
Defined.

Lemma update_items_raises_on (bad : string) (items : list (string * Value)) :
  (∀ self v, ∃ e, PyObject.setattr self bad v = Raise e) →
  bad ∈ PyObject.managed →
  bad ∈ items.*1 →
  ∀ self, ∃ e, Product.update_items self items = Raise e.
Proof.
  intros Hraise Hm. induction items as [|[k v] rest IH]; intros Hin self.
  - by apply elem_of_nil in Hin.
  - simpl. destruct (decide (k = bad)) as [->|Hne].
    + unfold PyObject.hasattr. rewrite (bool_decide_eq_true_2 _ Hm). simpl.
      destruct (Hraise self v) as [e ->]. eauto.
    + rewrite fmap_cons in Hin. simpl in Hin.
      apply elem_of_cons in Hin as [?|Hin]; [congruence|].
      destruct (PyObject.hasattr self k); [|by apply IH].
      destruct (PyObject.setattr self k v); [by apply IH|eauto].
Qed.

(** X17. [update] raises, and returns no product, whenever the mapping
    has a key [self], [__class__] or [__weakref__], whatever the other
    keys and the values are. *)
Theorem update_raises_on_reserved_names :
  ∀ (self : PyObject.t) (kwargs : list (string * Value)),
    ("self" ∈ kwargs.*1 ∨ "__class__" ∈ kwargs.*1 ∨
     "__weakref__" ∈ kwargs.*1) →
    ∃ e, Product.update self kwargs = Raise e.
Proof.
  intros self kwargs Hbad. unfold Product.update.
  destruct (bool_decide ("self" ∈ kwargs.*1)) eqn:Hself; [eauto|].
  apply bool_decide_eq_false in Hself.
  destruct Hbad as [?|[Hc|Hw]]; [done| |].
  - apply (update_items_raises_on "__class__"); [|set_solver|done].
    intros s v. unfold PyObject.setattr. rewrite decide_True by done. eauto.
  - apply (update_items_raises_on "__weakref__"); [|set_solver|done].
    intros s v. unfold PyObject.setattr.
    rewrite decide_False by done. rewrite decide_False by done.
    rewrite decide_True by done. eauto.
Qed.

Lemma update_raises_on_reserved_names_witness :
  ∃ e,
    Product.update (Product.to_object Sample.yacht1_built)
      [("name", VStr "Yacht Y"); ("__weakref__", VNone)] = Raise e.
Proof.
  apply (update_raises_on_reserved_names
           (Product.to_object Sample.yacht1_built)
           [("name", VStr "Yacht Y"); ("__weakref__", VNone)]).
  right. right. apply (bool_decide_unpack _). vm_compute. exact I.
Defined.

(** ** The [inventory view] command *)

Lemma secho_products_prints render h products w :
  Forall (λ p, is_Some (Product.category p)) products →
  secho_products render h products w
  = (Ok (),
     printed
       ((λ p, render p (category_name h p)) <$> products) w).
Proof.
  revert w. induction products as [|p rest IH]; intros w Hall.
  - unfold printed. simpl. rewrite app_nil_r. by destruct w.
  - apply Forall_cons in Hall as [[l Hl] Hall]. simpl.
    unfold category_name at 1. rewrite Hl.
    run_M. rewrite IH by done. unfold printed. simpl.
    by rewrite <- app_assoc.
Qed.

Lemma secho_products_raises render h products w :
  ¬ Forall (λ p, is_Some (Product.category p)) products →
  ∃ w',
    secho_products render h products w
    = (Raise (AttributeError "'NoneType' object has no attribute 'name'"),
       w') ∧
    files w' = files w ∧ context w' = context w.
Proof.
  revert w. induction products as [|p rest IH]; intros w Hex.
  - by destruct Hex.
  - simpl. destruct (Product.category p) as [l|] eqn:Hl.
    + run_M. edestruct IH as (w' & -> & Hf & Hc).
      * intros Hall. apply Hex. constructor; [by rewrite Hl|done].
      * exists w'. by split_and!.
    + exists w. by split_and!.
Qed.

(** X18. [inventory view], for a user with [view] in the company of a
    session that is not stale: when every product of the inventory has
    a category, it prints the description of the inventory and one line
    per product, in order, and saves the context; when some product has
    none, it raises [AttributeError] and the context is not saved. *)
Theorem inventory_view_needs_categories :
  ∀ (render : Product.t → string → string) (h : Heap) w c u,
    Session.company (Context._session (context w)) = Some c →
    Session._current_user (Context._session (context w)) = Some u →
    ¬ stale w →
    Company.has_permission c u PermissionCode.VIEW = true →
    (Forall (λ p, is_Some (Product.category p))
            (Inventory.products (Company.inventory c)) →
     ∃ w',
       get_inventory_list render h w = (Ok None, w') ∧
       files w' = Some (context w') ∧
       stdout w'
       = stdout w ++
         ("Inventory: " +:+ Inventory.description (Company.inventory c))
         :: ((λ p, render p (category_name h p))
               <$> Inventory.products (Company.inventory c))) ∧
    (¬ Forall (λ p, is_Some (Product.category p))
              (Inventory.products (Company.inventory c)) →
     ∃ w',
       get_inventory_list render h w
       = (Raise (AttributeError "'NoneType' object has no attribute 'name'"),
          w') ∧
       files w' = files w).
Proof.
  intros render h w c u Hc Hu Hfresh Hview. unfold get_inventory_list.
  destruct (require_permissions_company unit
              (get_inventory_list_body render h)
              [PermissionCode.VIEW] w c u Hc Hu Hfresh)
    as (w1 & (Hdata & _ & Hc1 & _ & _ & Hout & Hfiles) & ->).
  simpl. rewrite Hview. simpl.
  unfold with_app_context, get_inventory_list_body, ContextOps.save,
    ContextOps.current_company, get_session, get_context, mbind, M_bind,
    mret, M_ret. cbn -[secho_products]. rewrite Hc1, Hc.
  cbn -[secho_products]. unfold secho, mbind, M_bind, mret, M_ret.
  cbn -[secho_products].
  split.
  - intros Hall. rewrite secho_products_prints by done. simpl.
    eexists. split; [reflexivity|]. simpl. split; [done|].
    rewrite Hout, <- app_assoc. done.
  - intros Hex.
    match goal with
    | |- context [secho_products render h ?ps ?w0] =>
        destruct (secho_products_raises render h ps w0 Hex)
          as (w' & -> & Hf & _)
    end.
    eexists. split; [reflexivity|]. simpl in Hf. by rewrite Hf.
Qed.

Lemma inventory_view_needs_categories_witness :
  ∃ w',
    get_inventory_list (λ p n, "- " +:+ Product.uuid p +:+ " (" +:+ n +:+ ")")
      Sample.heap
      (Sample.world
         (Session.mk (Some Sample.alice)
            (Some (Company.mk "Boat Store" "Trump" "Sydney"
                     (Inventory.mk "Boat Store Main Warehouse"
                        [Sample.yacht1_built;
                         Product.mk "SKU010" "NavPro 5000"
                           "Advanced marine navigation system"
                           (Float 3500 0) 1673308800000000 true None
                           Product.Base ∅])
                     [Sample.c1_manager]))
            Sample.t0))
    = (Raise (AttributeError "'NoneType' object has no attribute 'name'"),
       w') ∧
    files w' = None.
Proof.
  apply (proj2 (inventory_view_needs_categories
           (λ p n, "- " +:+ Product.uuid p +:+ " (" +:+ n +:+ ")")
           Sample.heap
           (Sample.world
              (Session.mk (Some Sample.alice)
                 (Some (Company.mk "Boat Store" "Trump" "Sydney"
                          (Inventory.mk "Boat Store Main Warehouse"
                             [Sample.yacht1_built;
                              Product.mk "SKU010" "NavPro 5000"
                                "Advanced marine navigation system"
                                (Float 3500 0) 1673308800000000 true None
                                Product.Base ∅])
                          [Sample.c1_manager]))
                 Sample.t0))
           _ Sample.alice eq_refl eq_refl
           ltac:(unfold stale; vm_compute; discriminate) eq_refl)).
  intros Hall. apply Forall_cons in Hall as [_ Hall].
  apply Forall_cons in Hall as [[? Hnone] _]. discriminate.
Defined.
